(** * notify: a client for the WeCom application-message API

    A shallow embedding of [notify.go].  The client is one struct,
    [Notify], whose methods talk to three things outside the program: the
    wall clock, the HTTP endpoints of the remote service and the file
    system that holds the token cache.  The embedding threads the client
    and a [World] through every method; what the outside answers is read
    from an [Env], so that every theorem holds for every behaviour of the
    clock, the network and the disk.  [Upload] has answers of its own
    (the media file, the upload endpoint), kept in [UploadEnv] and
    [UploadWorld] on top of these. *)

From Stdlib Require Import ZArith Ascii String List Bool Lia.
From stdpp Require Import base option list strings gmap.

Local Open Scope Z_scope.
Local Open Scope string_scope.

(** ** Machine integers *)

(** Go's [int64]: arithmetic wraps around silently. *)
Definition wrap64 (z : Z) : Z := (z + 2 ^ 63) mod 2 ^ 64 - 2 ^ 63.

Definition add64 (a b : Z) : Z := wrap64 (a + b).

Definition int64_range (z : Z) : Prop := - 2 ^ 63 <= z < 2 ^ 63.

(** ** Errors *)

(** A Go [error] is represented by its message.  [fmt.Errorf("p: %w", e)]
    prefixes the message of the wrapped error. *)
Definition error := string.

Definition errors_New (msg : string) : error := msg.

Definition Errorf_w (pre : string) (e : error) : error := pre +:+ e.

(** ** Data model *)

(** MessageReceiver: at least one of the three fields must be set. *)
Record MessageReceiver := {
  ToUser : string;
  ToParty : string;
  ToTag : string
}.

Record MessageOptions := {
  Safe : bool;
  EnableIDTrans : bool;
  EnableDuplicateCheck : bool;
  DuplicateCheckInterval : Z
}.

Record MessageResult := {
  ErrorCode : Z;
  ErrorMsg : string;
  InvalidUser : string;
  InvalidParty : string;
  InvalidTag : string
}.

(** [var result MessageResult] *)
Definition zeroMessageResult : MessageResult :=
  {| ErrorCode := 0; ErrorMsg := ""; InvalidUser := ""; InvalidParty := "";
     InvalidTag := "" |}.

Record Text := { Text_Content : string }.
Record Image := { Image_MediaID : string }.
Record Voice := { Voice_MediaID : string }.
Record Video := {
  Video_MediaID : string; Video_Title : string; Video_Description : string
}.
Record File := { File_MediaID : string }.
Record TextCard := {
  TextCard_Title : string; TextCard_Description : string;
  TextCard_URL : string; TextCard_BtnTxt : string
}.
Record NewsArticle := {
  NewsArticle_Title : string; NewsArticle_Description : string;
  NewsArticle_URL : string; NewsArticle_PicURL : string
}.
Record News := { News_Articles : list NewsArticle }.
Record MpNewsArticle := {
  MpNewsArticle_Title : string; MpNewsArticle_ThumbMediaID : string;
  MpNewsArticle_Author : string; MpNewsArticle_ContentSourceURL : string;
  MpNewsArticle_Content : string; MpNewsArticle_Digest : string
}.
Record MpNews := { MpNews_Articles : list MpNewsArticle }.
Record Markdown := { Markdown_Content : string }.
Record MiniProgramContentItem := {
  MiniProgramContentItem_Key : string; MiniProgramContentItem_Value : string
}.
Record MiniProgram := {
  MiniProgram_AppID : string; MiniProgram_Page : string;
  MiniProgram_Title : string; MiniProgram_Description : string;
  MiniProgram_EmphasisFirstItem : bool;
  MiniProgram_ContentItems : list MiniProgramContentItem
}.
Record TaskCardButton := {
  TaskCardButton_Key : string; TaskCardButton_Name : string;
  TaskCardButton_ReplaceName : string; TaskCardButton_Color : string;
  TaskCardButton_IsBold : bool
}.
Record TaskCard := {
  TaskCard_Title : string; TaskCard_Description : string;
  TaskCard_URL : string; TaskCard_TaskID : string;
  TaskCard_Buttons : list TaskCardButton
}.

(** The types of the package that have the method [key]: the values a
    type assertion to the interface [MessageKey] accepts. *)
Inductive MessageKey :=
| KText (m : Text)
| KImage (m : Image)
| KVoice (m : Voice)
| KVideo (m : Video)
| KFile (m : File)
| KTextCard (m : TextCard)
| KNews (m : News)
| KMpNews (m : MpNews)
| KMarkdown (m : Markdown)
| KMiniProgram (m : MiniProgram)
| KTaskCard (m : TaskCard).

Definition key (k : MessageKey) : string :=
  match k with
  | KText _ => "text"
  | KImage _ => "image"
  | KVoice _ => "voice"
  | KVideo _ => "video"
  | KFile _ => "file"
  | KTextCard _ => "textcard"
  | KNews _ => "news"
  | KMpNews _ => "mpnews"
  | KMarkdown _ => "markdown"
  | KMiniProgram _ => "miniprogram_notice"
  | KTaskCard _ => "taskcard"
  end.

(** The argument [message interface{}] of [Send]: the nil interface, a
    value of one of the message types, or a value of any other dynamic
    type (named by [ty]), which has no method [key]. *)
Inductive iface :=
| INil
| IKey (k : MessageKey)
| IOther (ty : string).

(** [message.(MessageKey)] *)
Definition assertMessageKey (message : iface) : option MessageKey :=
  match message with
  | IKey k => Some k
  | INil | IOther _ => None
  end.

(** The values stored in [map[string]interface{}] by [Send]. *)
Inductive value :=
| VString (s : string)
| VInt (z : Z)
| VMessage (k : MessageKey).

Abbreviation msgBody := (gmap string value).

(** The client. *)
Record Notify := {
  corpID : string;
  agentID : Z;
  appSecret : string;
  TokenPersist : bool;
  Token : string;
  TokenExpiresAt : Z;
  CacheFilePath : string
}.

Definition set_TokenPersist (b : bool) (n : Notify) : Notify :=
  {| corpID := corpID n; agentID := agentID n; appSecret := appSecret n;
     TokenPersist := b; Token := Token n;
     TokenExpiresAt := TokenExpiresAt n; CacheFilePath := CacheFilePath n |}.

Definition set_Token (t : string) (n : Notify) : Notify :=
  {| corpID := corpID n; agentID := agentID n; appSecret := appSecret n;
     TokenPersist := TokenPersist n; Token := t;
     TokenExpiresAt := TokenExpiresAt n; CacheFilePath := CacheFilePath n |}.

Definition set_TokenExpiresAt (z : Z) (n : Notify) : Notify :=
  {| corpID := corpID n; agentID := agentID n; appSecret := appSecret n;
     TokenPersist := TokenPersist n; Token := Token n;
     TokenExpiresAt := z; CacheFilePath := CacheFilePath n |}.

Definition set_CacheFilePath (p : string) (n : Notify) : Notify :=
  {| corpID := corpID n; agentID := agentID n; appSecret := appSecret n;
     TokenPersist := TokenPersist n; Token := Token n;
     TokenExpiresAt := TokenExpiresAt n; CacheFilePath := p |}.

Record GetTokenResult := {
  gt_ErrorCode : Z;
  gt_ErrorMsg : string;
  gt_Token : string;
  gt_ExpiresIn : Z
}.

(** ** The outside world *)

(** What an HTTP exchange followed by [json.NewDecoder(...).Decode] gives:
    the request fails, the body does not decode (the target struct is
    left holding [partial]), or a value is decoded. *)
Inductive http_reply (A : Type) :=
| HttpFail (e : error)
| HttpBadBody (e : error) (partial : A)
| HttpOk (a : A).

Arguments HttpFail {A} e.
Arguments HttpBadBody {A} e partial.
Arguments HttpOk {A} a.

(** A file has its bytes and a flag telling whether they have reached
    stable storage ([f.Sync]). *)
Record file := { data : string; synced : bool }.

Record FS := { files : gmap string file; dirs : gset string }.

(** The system calls the client issues, with their outcome. *)
Inductive syscall :=
| SysReadFile (p : string)
| SysMkdirAll (d : string) (ok : bool)
| SysCreate (p : string) (ok : bool)
| SysWrite (p : string) (written : string)
| SysSync (p : string) (ok : bool)
| SysClose (p : string)
| SysRemove (p : string) (ok : bool)
| SysRename (src dst : string) (ok : bool).

Definition with_files (m : gmap string file) (s : FS) : FS :=
  {| files := m; dirs := dirs s |}.

(** The effect of one system call on the file system.  A call that fails
    changes nothing; a write appends the bytes that were written, all of
    them or, on failure, a part; a rename moves the file over its
    destination in one step. *)
Definition apply_call (c : syscall) (s : FS) : FS :=
  match c with
  | SysMkdirAll d true => {| files := files s; dirs := {[ d ]} ∪ dirs s |}
  | SysCreate p true =>
      with_files (<[ p := {| data := ""; synced := false |} ]> (files s)) s
  | SysWrite p written =>
      with_files
        (alter (fun f => {| data := data f +:+ written; synced := false |})
               p (files s)) s
  | SysSync p true =>
      with_files
        (alter (fun f => {| data := data f; synced := true |}) p (files s)) s
  | SysRemove p true => with_files (delete p (files s)) s
  | SysRename src dst true =>
      match files s !! src with
      | Some f => with_files (<[ dst := f ]> (delete src (files s))) s
      | None => s
      end
  | _ => s
  end.

(** The file system after a sequence of calls. *)
Definition replay (cs : list syscall) (s : FS) : FS :=
  fold_left (fun s c => apply_call c s) cs s.

(** The network and the clock as the client has used them so far: the
    number of clock readings, the token requests (corp id and secret),
    the message posts (token of the URL and body) and the lines printed. *)
Record Net := {
  ticks : nat;
  token_gets : list (string * string);
  posts : list (string * msgBody);
  stdout : list string
}.

Record Disk := { fs : FS; syslog : list syscall }.

Record World := { net : Net; disk : Disk }.

(** What the outside answers.  The functions of Go's standard library
    that the client calls on its data ([json.Marshal] and
    [json.Unmarshal] at type [Notify], [filepath.Dir]) are taken as they
    come; the clock, the two endpoints and the outcome of each system
    call are scripts indexed by the number of earlier calls. *)
Record Env := {
  json_Marshal : Notify -> error + string;
  json_Unmarshal : string -> error + Notify;
  filepath_Dir : string -> string;
  time_at : nat -> Z;
  token_reply : nat -> http_reply GetTokenResult;
  send_reply : nat -> http_reply MessageResult;
  fs_fault : nat -> option error;
  fs_short : nat -> nat
}.

(** ** Methods as state transformers *)

(** A method of [*Notify] reads and writes the client and the world. *)
Definition M (A : Type) : Type := Notify -> World -> A * Notify * World.

Definition ret {A} (a : A) : M A := fun n w => (a, n, w).

Definition bind {A B} (m : M A) (k : A -> M B) : M B :=
  fun n w => let '(a, n1, w1) := m n w in k a n1 w1.

Notation "'let!' x ':=' m 'in' k" := (bind m (fun x => k))
  (at level 10, x pattern, m at level 100, k at level 200).

Definition get_client : M Notify := fun n w => (n, n, w).

Definition put_client (n' : Notify) : M unit := fun _ w => (tt, n', w).

(** The world after one more reading of the clock. *)
Definition tick (w : World) : World :=
  {| net := {| ticks := S (ticks (net w)); token_gets := token_gets (net w);
               posts := posts (net w); stdout := stdout (net w) |};
     disk := disk w |}.

Definition is_nil (e : option error) : bool :=
  match e with None => true | Some _ => false end.

Section Methods.

Variable env : Env.

(** [time.Now().Unix()] *)
Definition time_Now_Unix : M Z := fun n w =>
  (time_at env (ticks (net w)), n, tick w).

(** [fmt.Println(token)] *)
Definition fmt_Println (s : string) : M unit := fun n w =>
  (tt, n,
   {| net := {| ticks := ticks (net w); token_gets := token_gets (net w);
                posts := posts (net w); stdout := stdout (net w) ++ [s] |};
      disk := disk w |}).

(** [client.Get(".../gettoken?corpid=%s&corpsecret=%s")] and the decoding
    of its body. *)
Definition http_Get_gettoken (corp secret : string)
    : M (http_reply GetTokenResult) := fun n w =>
  (token_reply env (length (token_gets (net w))), n,
   {| net := {| ticks := ticks (net w);
                token_gets := token_gets (net w) ++ [(corp, secret)];
                posts := posts (net w); stdout := stdout (net w) |};
      disk := disk w |}).

(** [client.Post(".../message/send?access_token=%s", ..., body)] and the
    decoding of its body. *)
Definition http_Post_send (token : string) (body : msgBody)
    : M (http_reply MessageResult) := fun n w =>
  (send_reply env (length (posts (net w))), n,
   {| net := {| ticks := ticks (net w); token_gets := token_gets (net w);
                posts := posts (net w) ++ [(token, body)];
                stdout := stdout (net w) |};
      disk := disk w |}).

(** Issue one system call: its effect is applied and it is logged. *)
Definition sys (c : syscall) (w : World) : World :=
  {| net := net w;
     disk := {| fs := apply_call c (fs (disk w));
                syslog := syslog (disk w) ++ [c] |} |}.

(** The outcome the environment gives to the next system call. *)
Definition fault_now (w : World) : option error :=
  fs_fault env (length (syslog (disk w))).

Definition os_ReadFile (p : string) : M (error + string) := fun n w =>
  (match fault_now w with
   | Some e => inl e
   | None =>
       match files (fs (disk w)) !! p with
       | Some f => inr (data f)
       | None => inl ("open " +:+ p +:+ ": no such file or directory")
       end
   end, n, sys (SysReadFile p) w).

Definition os_MkdirAll (d : string) : M (option error) := fun n w =>
  let r := fault_now w in (r, n, sys (SysMkdirAll d (is_nil r)) w).

Definition os_Create (p : string) : M (option error) := fun n w =>
  let r := fault_now w in (r, n, sys (SysCreate p (is_nil r)) w).

(** [f.Write(b)]: on failure only the first [fs_short] bytes are written. *)
Definition file_Write (p : string) (b : string) : M (option error) :=
  fun n w =>
  let r := fault_now w in
  let written :=
    match r with
    | None => b
    | Some _ => substring 0 (fs_short env (length (syslog (disk w)))) b
    end in
  (r, n, sys (SysWrite p written) w).

Definition file_Sync (p : string) : M (option error) := fun n w =>
  let r := fault_now w in (r, n, sys (SysSync p (is_nil r)) w).

Definition file_Close (p : string) : M (option error) := fun n w =>
  (fault_now w, n, sys (SysClose p) w).

Definition os_Remove (p : string) : M (option error) := fun n w =>
  let r := fault_now w in (r, n, sys (SysRemove p (is_nil r)) w).

Definition os_Rename (src dst : string) : M (option error) := fun n w =>
  let r := fault_now w in (r, n, sys (SysRename src dst (is_nil r)) w).

(** *** The token cache *)

(** [func (n *Notify) saveTokenCache() error] *)
Definition saveTokenCache : M (option error) :=
  let! n := get_client in
  if negb (TokenPersist n) then ret (Some "token persist not enabled")
  else
    match json_Marshal env n with
    | inl e => ret (Some (Errorf_w "marshal notify object failed: " e))
    | inr b =>
      let cacheDir := filepath_Dir env (CacheFilePath n) in
      let! err :=
        (if String.eqb cacheDir "." then ret None else os_MkdirAll cacheDir) in
      match err with
      | Some e => ret (Some (Errorf_w "create cache directory failed: " e))
      | None =>
        let tempFile := CacheFilePath n +:+ ".tmp" in
        let! err := os_Create tempFile in
        match err with
        | Some e => ret (Some (Errorf_w "create temp file failed: " e))
        | None =>
          let! err := file_Write tempFile b in
          match err with
          | Some e =>
              let! _ := file_Close tempFile in
              let! _ := os_Remove tempFile in
              ret (Some (Errorf_w "write to temp file failed: " e))
          | None =>
            let! err := file_Sync tempFile in
            match err with
            | Some e =>
                let! _ := file_Close tempFile in
                let! _ := os_Remove tempFile in
                ret (Some (Errorf_w "sync temp file failed: " e))
            | None =>
              let! err := file_Close tempFile in
              match err with
              | Some e =>
                  let! _ := os_Remove tempFile in
                  ret (Some (Errorf_w "close temp file failed: " e))
              | None =>
                let! err := os_Rename tempFile (CacheFilePath n) in
                match err with
                | Some e =>
                    ret (Some (Errorf_w "rename temp file failed: " e))
                | None => ret None
                end
              end
            end
          end
        end
      end
    end.

(** [func (n *Notify) loadTokenCache() error] *)
Definition loadTokenCache : M (option error) :=
  let! n := get_client in
  if negb (TokenPersist n) then ret (Some "token persist not enabled")
  else
    let! r := os_ReadFile (CacheFilePath n) in
    match r with
    | inl e => ret (Some (Errorf_w "read cache file error: " e))
    | inr b =>
      match json_Unmarshal env b with
      | inl e => ret (Some (Errorf_w "unmarshal cache data error: " e))
      | inr cache =>
        let! now := time_Now_Unix in
        if (now >? TokenExpiresAt cache)%Z then ret (Some "token expired")
        else
          let! _ := put_client
                      (set_TokenExpiresAt (TokenExpiresAt cache)
                         (set_Token (Token cache) n)) in
          ret None
      end
    end.

(** [func New(corpID string, agentID int64, appSecret string) *Notify] *)
Definition New (corp : string) (agent : Z) (secret : string)
    : World -> Notify * World := fun w =>
  let n := {| corpID := corp; agentID := agent; appSecret := secret;
              TokenPersist := false; Token := ""; TokenExpiresAt := 0;
              CacheFilePath := ".notify" |} in
  let '(_, n', w') := loadTokenCache n w in
  (n', w').

(** [func (n *Notify) EnableTokenPersist()] *)
Definition EnableTokenPersist : M unit :=
  let! n := get_client in put_client (set_TokenPersist true n).

(** [func (n *Notify) SetCacheFilePath(path string)] *)
Definition SetCacheFilePath (path : string) : M unit :=
  let! n := get_client in put_client (set_CacheFilePath path n).

(** The test [n.Token != "" && time.Now().Unix() < n.TokenExpiresAt]; the
    clock is read only when the token is not empty. *)
Definition tokenValid : M bool :=
  let! n := get_client in
  if String.eqb (Token n) "" then ret false
  else
    let! now := time_Now_Unix in
    ret (now <? TokenExpiresAt n)%Z.

(** [func (n *Notify) GetToken() (string, int64, error)] *)
Definition GetToken : M (string * Z * option error) :=
  let! valid := tokenValid in
  let! n := get_client in
  if valid then ret (Token n, TokenExpiresAt n, None)
  else
    let! res := http_Get_gettoken (corpID n) (appSecret n) in
    match res with
    | HttpFail e => ret ("", 0, Some (Errorf_w "token get request error: " e))
    | HttpBadBody e _ =>
        ret ("", 0, Some (Errorf_w "token result decode error: " e))
    | HttpOk tokenRes =>
      if negb (gt_ErrorCode tokenRes =? 0)%Z
      then ret ("", 0, Some ("token get error: " +:+ gt_ErrorMsg tokenRes))
      else
        let! now := time_Now_Unix in
        let! _ := put_client
                    (set_TokenExpiresAt (add64 now (gt_ExpiresIn tokenRes))
                       (set_Token (gt_Token tokenRes) n)) in
        let! _ := saveTokenCache in
        let! n := get_client in
        ret (gt_Token tokenRes, TokenExpiresAt n, None)
    end.

(** *** Sending *)

(** [func setOptions(msgBody map[string]interface{}, options *MessageOptions)];
    the map is updated in place, here the updated map is returned. *)
Definition setOptions (body : msgBody) (options : option MessageOptions)
    : msgBody :=
  match options with
  | None => body
  | Some o =>
    let body := if Safe o then <[ "safe" := VInt 1 ]> body else body in
    let body :=
      if EnableIDTrans o then <[ "enable_id_trans" := VInt 1 ]> body
      else body in
    if EnableDuplicateCheck o then
      let body := <[ "enable_duplicate_check" := VInt 1 ]> body in
      if negb (DuplicateCheckInterval o =? 0)%Z
      then <[ "duplicate_check_interval" :=
                VInt (DuplicateCheckInterval o) ]> body
      else body
    else body
  end.

(** [func (n *Notify) sendMessage(msgBody) (MessageResult, error)].  The
    values [Send] puts in the body always encode, so the encoding step
    has no failing branch here. *)
Definition sendMessage (body : msgBody) : M (MessageResult * option error) :=
  let! n := get_client in
  let! res := http_Post_send (Token n) body in
  match res with
  | HttpFail e =>
      ret (zeroMessageResult, Some (Errorf_w "send message request error: " e))
  | HttpBadBody e partial =>
      ret (partial, Some (Errorf_w "send message result decode error: " e))
  | HttpOk result => ret (result, None)
  end.

(** [func (n *Notify) sendInternal(msgBody) (MessageResult, error)].

    Inside the retry block the statement [token, _, err := n.GetToken()]
    declares a new [err] for that block; the assignment
    [result, err = n.sendMessage(msgBody)] below it writes the [result]
    of the function and that inner [err].  The [err] returned at the end
    is the outer one, which is nil whenever the block was entered. *)
Definition sendInternal (body : msgBody) : M (MessageResult * option error) :=
  let! (token, _, err) := GetToken in
  match err with
  | Some e => ret (zeroMessageResult, Some e)
  | None =>
    let! _ := fmt_Println token in
    let! (result, err) := sendMessage body in
    if is_nil err
       && ((ErrorCode result =? 42001)%Z || (ErrorCode result =? 40014)%Z)
    then
      let! (token', _, err') := GetToken in
      let! _ := fmt_Println token' in
      match err' with
      | None =>
          let! (result', _) := sendMessage body in
          ret (result', err)
      | Some _ => ret (result, err)
      end
    else ret (result, err)
  end.

(** [func (n *Notify) Send(receiver, message, options) (MessageResult, error)].
    The verb [%T] is applied to [reflect.TypeOf(message)], whose own type
    is [*reflect.rtype] whatever the message is. *)
Definition Send (receiver : MessageReceiver) (message : iface)
    (options : option MessageOptions) : M (MessageResult * option error) :=
  let result := zeroMessageResult in
  match message with
  | INil => ret (result, Some (errors_New "message can not be nil"))
  | _ =>
    let body : msgBody := ∅ in
    if Nat.eqb (String.length (ToUser receiver)) 0
       && Nat.eqb (String.length (ToParty receiver)) 0
       && Nat.eqb (String.length (ToTag receiver)) 0
    then
      ret (result,
           Some (errors_New "message receiver not set, set at least one"))
    else
      let! n := get_client in
      let body := <[ "touser" := VString (ToUser receiver) ]> body in
      let body := <[ "toparty" := VString (ToParty receiver) ]> body in
      let body := <[ "totag" := VString (ToTag receiver) ]> body in
      let body := <[ "agentid" := VInt (agentID n) ]> body in
      let body := setOptions body options in
      match assertMessageKey message with
      | None =>
          ret (result, Some "unrecognized message type: *reflect.rtype")
      | Some k =>
          let body := <[ "msgtype" := VString (key k) ]> body in
          let body := <[ key k := VMessage k ]> body in
          sendInternal body
      end
  end.

End Methods.

(** ** A reference environment

    To run the model on concrete inputs the functions of the standard
    library need an implementation.  [GoStd] gives a small one: the JSON
    text [json.Marshal] prints for a [Notify] (exported fields in
    declaration order; strings with quote and backslash escaped), a
    reader for flat JSON objects, and [filepath.Dir] on slash-separated
    paths without cleaning.  The theorems below never depend on it. *)
Module GoStd.

Definition quote : ascii := ascii_of_nat 34.
Definition backslash : ascii := "\"%char.

Fixpoint escape (s : string) : string :=
  match s with
  | EmptyString => EmptyString
  | String c r =>
      if Ascii.eqb c quote then String backslash (String quote (escape r))
      else if Ascii.eqb c backslash
           then String backslash (String backslash (escape r))
           else String c (escape r)
  end.

Definition print_string (s : string) : string :=
  String quote (escape s) +:+ String quote EmptyString.

Definition print_bool (b : bool) : string := if b then "true" else "false".

Definition digit_char (d : Z) : ascii := ascii_of_nat (48 + Z.to_nat d).

Fixpoint print_digits (fuel : nat) (z : Z) (acc : string) : string :=
  match fuel with
  | O => acc
  | S fuel =>
      let acc := String (digit_char (z mod 10)) acc in
      if (z / 10 =? 0)%Z then acc else print_digits fuel (z / 10) acc
  end.

Definition print_int (z : Z) : string :=
  if (z <? 0)%Z then String "-"%char (print_digits 20 (- z) EmptyString)
  else print_digits 20 z EmptyString.

Definition marshalNotify (n : Notify) : error + string :=
  inr ("{" +:+ print_string "TokenPersist" +:+ ":"
           +:+ print_bool (TokenPersist n) +:+ ","
           +:+ print_string "Token" +:+ ":" +:+ print_string (Token n) +:+ ","
           +:+ print_string "TokenExpiresAt" +:+ ":"
           +:+ print_int (TokenExpiresAt n) +:+ ","
           +:+ print_string "CacheFilePath" +:+ ":"
           +:+ print_string (CacheFilePath n) +:+ "}").

(** JSON values of a flat object. *)
Inductive jvalue :=
| JString (s : string)
| JInt (z : Z)
| JBool (b : bool).

(** The characters of a string literal after its opening quote, up to
    the closing quote; the rest of the input follows. *)
Fixpoint read_string_body (s : string) : option (string * string) :=
  match s with
  | EmptyString => None
  | String c r =>
      if Ascii.eqb c quote then Some (EmptyString, r)
      else if Ascii.eqb c backslash then
        match r with
        | String c' r' =>
            if Ascii.eqb c' quote || Ascii.eqb c' backslash then
              match read_string_body r' with
              | Some (body, rest) => Some (String c' body, rest)
              | None => None
              end
            else None
        | EmptyString => None
        end
      else
        match read_string_body r with
        | Some (body, rest) => Some (String c body, rest)
        | None => None
        end
  end.

Definition is_digit (c : ascii) : bool :=
  (48 <=? nat_of_ascii c)%nat && (nat_of_ascii c <=? 57)%nat.

Fixpoint read_digits (s : string) (acc : Z) (seen : bool)
    : option (Z * string) :=
  match s with
  | String c r =>
      if is_digit c
      then read_digits r (10 * acc + Z.of_nat (nat_of_ascii c - 48)) true
      else if seen then Some (acc, s) else None
  | EmptyString => if seen then Some (acc, s) else None
  end.

Definition read_value (s : string) : option (jvalue * string) :=
  match s with
  | String c r =>
      if Ascii.eqb c quote then
        match read_string_body r with
        | Some (body, rest) => Some (JString body, rest)
        | None => None
        end
      else if Ascii.eqb c "-"%char then
        match read_digits r 0 false with
        | Some (z, rest) => Some (JInt (- z), rest)
        | None => None
        end
      else if String.prefix "true" s then Some (JBool true, substring 4 (String.length s - 4) s)
      else if String.prefix "false" s then Some (JBool false, substring 5 (String.length s - 5) s)
      else
        match read_digits s 0 false with
        | Some (z, rest) => Some (JInt z, rest)
        | None => None
        end
  | EmptyString => None
  end.

(** The members of an object after its opening brace. *)
Fixpoint read_members (fuel : nat) (s : string)
    : option (list (string * jvalue)) :=
  match fuel with
  | O => None
  | S fuel =>
      match s with
      | String c r =>
          if Ascii.eqb c quote then
            match read_string_body r with
            | Some (k, String colon r1) =>
                if Ascii.eqb colon ":"%char then
                  match read_value r1 with
                  | Some (v, String sep r2) =>
                      if Ascii.eqb sep ","%char then
                        match read_members fuel r2 with
                        | Some ms => Some ((k, v) :: ms)
                        | None => None
                        end
                      else if Ascii.eqb sep "}"%char then
                        match r2 with
                        | EmptyString => Some [(k, v)]
                        | _ => None
                        end
                      else None
                  | _ => None
                  end
                else None
            | _ => None
            end
          else None
      | EmptyString => None
      end
  end.

Definition read_object (s : string) : option (list (string * jvalue)) :=
  match s with
  | String c r =>
      if Ascii.eqb c "{"%char then
        if String.eqb r "}" then Some [] else read_members (String.length s) r
      else None
  | EmptyString => None
  end.

(** Store one member in the struct, as [json.Unmarshal] does for the
    exported fields; unknown names are skipped, a value of the wrong
    type is an error. *)
Definition store_member (n : option Notify) (kv : string * jvalue)
    : option Notify :=
  match n with
  | None => None
  | Some n =>
      let '(k, v) := kv in
      if String.eqb k "TokenPersist" then
        match v with JBool b => Some (set_TokenPersist b n) | _ => None end
      else if String.eqb k "Token" then
        match v with JString t => Some (set_Token t n) | _ => None end
      else if String.eqb k "TokenExpiresAt" then
        match v with JInt z => Some (set_TokenExpiresAt z n) | _ => None end
      else if String.eqb k "CacheFilePath" then
        match v with JString p => Some (set_CacheFilePath p n) | _ => None end
      else Some n
  end.

(** [var cache Notify] *)
Definition zeroNotify : Notify :=
  {| corpID := ""; agentID := 0; appSecret := ""; TokenPersist := false;
     Token := ""; TokenExpiresAt := 0; CacheFilePath := "" |}.

Definition unmarshalNotify (b : string) : error + Notify :=
  match read_object b with
  | None => inl "invalid JSON for Notify"
  | Some ms =>
      match fold_left store_member ms (Some zeroNotify) with
      | Some n => inr n
      | None => inl "json: cannot unmarshal value into Go struct field"
      end
  end.

(** The part of [path] before its last slash; [.] if there is none. *)
Fixpoint dir_aux (s : string) : option string :=
  match s with
  | EmptyString => None
  | String c r =>
      match dir_aux r with
      | Some d => Some (String c d)
      | None => if Ascii.eqb c "/"%char then Some EmptyString else None
      end
  end.

Definition Dir (path : string) : string :=
  match dir_aux path with
  | None => "."
  | Some EmptyString => "/"
  | Some d => d
  end.

(** An environment over these functions in which the clock shows [now]
    at every reading, and the endpoints and the disk follow the scripts. *)
Definition mkEnv (now : Z) (tok : nat -> http_reply GetTokenResult)
    (snd : nat -> http_reply MessageResult) (fault : nat -> option error)
    : Env :=
  {| json_Marshal := marshalNotify; json_Unmarshal := unmarshalNotify;
     filepath_Dir := Dir; time_at := fun _ => now;
     token_reply := tok; send_reply := snd;
     fs_fault := fault; fs_short := fun _ => 3%nat |}.

Definition emptyWorld : World :=
  {| net := {| ticks := 0; token_gets := []; posts := []; stdout := [] |};
     disk := {| fs := {| files := ∅; dirs := ∅ |}; syslog := [] |} |}.

End GoStd.

(** ** Comparing runs *)

(** The environment that stores like [s] (JSON codec, paths, outcome of
    the system calls) and whose clock and endpoints are those of [e]. *)
Definition with_storage (s e : Env) : Env :=
  {| json_Marshal := json_Marshal s; json_Unmarshal := json_Unmarshal s;
     filepath_Dir := filepath_Dir s; time_at := time_at e;
     token_reply := token_reply e; send_reply := send_reply e;
     fs_fault := fs_fault s; fs_short := fs_short s |}.

Definition same_remote (e1 e2 : Env) : Prop :=
  time_at e1 = time_at e2 /\ token_reply e1 = token_reply e2 /\
  send_reply e1 = send_reply e2.

(** Two outcomes of a method agree when the caller cannot tell them
    apart: same returned value, same client, same use of the clock and
    of the network.  Only the disk may differ. *)
Definition agree {A} (x y : A * Notify * World) : Prop :=
  x.1.1 = y.1.1 /\ x.1.2 = y.1.2 /\ net x.2 = net y.2.

Definition agreeM {A} (m1 m2 : M A) : Prop :=
  forall n w1 w2, net w1 = net w2 -> agree (m1 n w1) (m2 n w2).

(** ** Crashes during a save *)

(** The system calls one run of [saveTokenCache] issues, in order. *)
Definition save_calls (env : Env) (n : Notify) (w : World) : list syscall :=
  drop (length (syslog (disk w)))
       (syslog (disk (saveTokenCache env n w).2)).

(** What a reader finds under the cache path of the client. *)
Definition cache_file (s : FS) (n : Notify) : option file :=
  files s !! CacheFilePath n.

(** Whether a call can change what is found under path [p]. *)
Definition writes_to (c : syscall) (p : string) : bool :=
  match c with
  | SysCreate q true | SysWrite q _ | SysSync q true | SysRemove q true =>
      String.eqb q p
  | SysRename src dst true => String.eqb src p || String.eqb dst p
  | _ => false
  end.

(** ** A fresh client reading the cache *)

(** A client as [New] makes it, with persistence switched on and the
    cache path set afterwards (the two setters are the only way to do
    either). *)
Definition fresh_manager (env : Env) (corp : string) (agent : Z)
    (secret : string) (path : string) (w : World) : Notify * World :=
  let '(n, w1) := New env corp agent secret w in
  let '(_, n1, w2) := EnableTokenPersist n w1 in
  let '(_, n2, w3) := SetCacheFilePath path n1 w2 in
  (n2, w3).

(** [json.Unmarshal] gives back the token and expiry that [json.Marshal]
    wrote for client [n]. *)
Definition codec_roundtrip (env : Env) (n : Notify) : Prop :=
  match json_Marshal env n with
  | inr b =>
      match json_Unmarshal env b with
      | inr c => Token c = Token n /\ TokenExpiresAt c = TokenExpiresAt n
      | inl _ => False
      end
  | inl _ => False
  end.

(** ** What a call posts *)

(** The posts made between two worlds of one run. *)
Definition new_posts (before after : World) : list (string * msgBody) :=
  drop (length (posts (net before))) (posts (net after)).

(** Every post a method makes carries the body [b]. *)
Definition posts_only (b : msgBody) {A} (m : M A) : Prop :=
  forall n w, exists l,
    posts (net (m n w).2) = (posts (net w) ++ l)%list /\
    Forall (fun tb => tb.2 = b) l.

(** ** Sample runs *)

Module Samples.

Definition client_cached : Notify :=
  {| corpID := "corp"; agentID := 7; appSecret := "sec";
     TokenPersist := true; Token := "tok"; TokenExpiresAt := 7200;
     CacheFilePath := "cache/tok.json" |}.

Definition client_empty : Notify :=
  {| corpID := "corp"; agentID := 7; appSecret := "sec";
     TokenPersist := true; Token := ""; TokenExpiresAt := 0;
     CacheFilePath := "cache/tok.json" |}.

(** A client whose token expires at second 100. *)
Definition client_expiring : Notify :=
  {| corpID := "corp"; agentID := 7; appSecret := "sec";
     TokenPersist := true; Token := "cached"; TokenExpiresAt := 100;
     CacheFilePath := "cache/tok.json" |}.

Definition token_ok : GetTokenResult :=
  {| gt_ErrorCode := 0; gt_ErrorMsg := "ok"; gt_Token := "fresh";
     gt_ExpiresIn := 7200 |}.

Definition result_expired : MessageResult :=
  {| ErrorCode := 42001; ErrorMsg := "access_token expired";
     InvalidUser := ""; InvalidParty := ""; InvalidTag := "" |}.

(** The clock shows second 100; everything succeeds. *)
Definition env_quiet : Env :=
  GoStd.mkEnv 100 (fun _ => HttpOk token_ok)
    (fun _ => HttpOk zeroMessageResult) (fun _ => None).

(** The credential-exchange endpoint cannot be reached. *)
Definition env_token_down : Env :=
  GoStd.mkEnv 100 (fun _ => HttpFail "dial tcp: i/o timeout")
    (fun _ => HttpOk zeroMessageResult) (fun _ => None).

(** Every system call fails. *)
Definition env_disk_full : Env :=
  GoStd.mkEnv 100 (fun _ => HttpOk token_ok)
    (fun _ => HttpOk zeroMessageResult)
    (fun _ => Some "no space left on device").

(** The first post is answered with code 42001, the second one fails in
    transport. *)
Definition env_expired_then_reset : Env :=
  GoStd.mkEnv 100 (fun _ => HttpOk token_ok)
    (fun i => match i with
              | O => HttpOk result_expired
              | S _ => HttpFail "connection reset by peer"
              end)
    (fun _ => None).

Definition to_alice : MessageReceiver :=
  {| ToUser := "alice"; ToParty := ""; ToTag := "" |}.

Definition to_nobody : MessageReceiver :=
  {| ToUser := ""; ToParty := ""; ToTag := "" |}.

Definition hello : iface := IKey (KText {| Text_Content := "hello" |}).

Definition dedup_900 : MessageOptions :=
  {| Safe := false; EnableIDTrans := false; EnableDuplicateCheck := true;
     DuplicateCheckInterval := 900 |}.

Definition nodedup_900 : MessageOptions :=
  {| Safe := false; EnableIDTrans := false; EnableDuplicateCheck := false;
     DuplicateCheckInterval := 900 |}.

(** The body [Send] builds for [hello] to [to_alice] with [dedup_900]. *)
Definition hello_body : msgBody :=
  <[ "text" := VMessage (KText {| Text_Content := "hello" |}) ]>
    (<[ "msgtype" := VString "text" ]>
       (setOptions
          (<[ "agentid" := VInt 7 ]>
             (<[ "totag" := VString "" ]>
                (<[ "toparty" := VString "" ]>
                   (<[ "touser" := VString "alice" ]> ∅))))
          (Some dedup_900))).

(** The disk after [client_expiring] has saved its cache. *)
Definition world_with_cache : World :=
  (saveTokenCache env_quiet client_expiring GoStd.emptyWorld).2.

End Samples.

(** ** Media upload *)

Record UploadMedia := { Media_Type : string; Media_Path : string }.

Record UploadMediaResult := {
  um_ErrorCode : Z;
  um_ErrorMsg : string;
  um_Type : string;
  um_MediaID : string;
  um_CreatedAt : string
}.

(** [var result UploadMediaResult] *)
Definition zeroUploadMediaResult : UploadMediaResult :=
  {| um_ErrorCode := 0; um_ErrorMsg := EmptyString; um_Type := EmptyString;
     um_MediaID := EmptyString; um_CreatedAt := EmptyString |}.

(** One post to the upload endpoint: the token and media type of the
    URL, and the single part of the multipart body (form field, file
    name, bytes). *)
Record upload_post := {
  up_token : string;
  up_type : string;
  up_field : string;
  up_filename : string;
  up_content : string
}.

(** What [Upload] needs from outside beyond [Env]: [filepath.Base], the
    outcome of the [os.Open], [CreateFormFile] and [io.Copy] of each
    call, and the answers of the upload endpoint. *)
Record UploadEnv := {
  up_env : Env;
  filepath_Base : string -> string;
  open_fault : nat -> option error;
  formfile_fault : nat -> option error;
  copy_fault : nat -> option error;
  upload_reply : nat -> http_reply UploadMediaResult
}.

(** The world of [Upload]: the world of the other methods, the number of
    calls so far and the posts to the upload endpoint. *)
Record UploadWorld := {
  up_world : World;
  upload_calls : nat;
  uploads : list upload_post
}.

(** [os.Open(path)] followed by reading the file to its end: the bytes of
    the file, or the error of the step that failed. *)
Definition open_media (uenv : UploadEnv) (path : string) (u : UploadWorld)
    : error + string :=
  match open_fault uenv (upload_calls u) with
  | Some e => inl e
  | None =>
      match files (fs (disk (up_world u))) !! path with
      | Some f => inr (data f)
      | None => inl ("open " +:+ path +:+ ": no such file or directory")
      end
  end.

(** [func (n *Notify) Upload(media UploadMedia) (UploadMediaResult, error)] *)
Definition Upload (uenv : UploadEnv) (media : UploadMedia) (n : Notify)
    (u : UploadWorld)
    : (UploadMediaResult * option error) * Notify * UploadWorld :=
  let result := zeroUploadMediaResult in
  let i := upload_calls u in
  let u1 := {| up_world := up_world u; upload_calls := S i;
               uploads := uploads u |} in
  match open_media uenv (Media_Path media) u with
  | inl e => ((result, Some (Errorf_w "open media file error: " e)), n, u1)
  | inr content =>
    match formfile_fault uenv i with
    | Some e =>
        ((result, Some (Errorf_w "create multipart file error: " e)), n, u1)
    | None =>
      match copy_fault uenv i with
      | Some e =>
          ((result, Some (Errorf_w "read media file error: " e)), n, u1)
      | None =>
        let '((token, _, err), n1, w1) :=
          GetToken (up_env uenv) n (up_world u) in
        match err with
        | Some e =>
            ((result, Some e), n1,
             {| up_world := w1; upload_calls := S i; uploads := uploads u |})
        | None =>
          let '(_, _, w2) := fmt_Println token n1 w1 in
          let post := {| up_token := Token n1; up_type := Media_Type media;
                         up_field := "media";
                         up_filename :=
                           filepath_Base uenv (Media_Path media);
                         up_content := content |} in
          let u2 := {| up_world := w2; upload_calls := S i;
                       uploads := uploads u ++ [post] |} in
          match upload_reply uenv (length (uploads u)) with
          | HttpFail e =>
              ((result, Some (Errorf_w "upload media file error: " e)),
               n1, u2)
          | HttpBadBody e partial =>
              ((partial,
                Some (Errorf_w "upload media result decode error: " e)),
               n1, u2)
          | HttpOk r => ((r, None), n1, u2)
          end
        end
      end
    end
  end.

(** ** Invariants of a run *)

(** The client together with the world it runs in. *)
Definition state : Type := Notify * World.

(** Every run of [m] takes a state to one related to it by [R]. *)
Definition moves (R : state -> state -> Prop) {A} (m : M A) : Prop :=
  forall n w, R (n, w) ((m n w).1.2, (m n w).2).

(** What the primitive steps of the methods must do for [R] to hold
    across [GetToken] and [Send]. *)
Record step_invariant (env : Env) (R : state -> state -> Prop) : Prop := {
  inv_refl : forall s, R s s;
  inv_trans : forall s1 s2 s3, R s1 s2 -> R s2 s3 -> R s1 s3;
  inv_clock : moves R (time_Now_Unix env);
  inv_print : forall line, moves R (fmt_Println line);
  inv_gettoken : forall corp secret, moves R (http_Get_gettoken env corp secret);
  inv_post : forall token body, moves R (http_Post_send env token body);
  inv_put : forall t x n w,
    R (n, w) (set_TokenExpiresAt x (set_Token t n), w);
  inv_save : moves R (saveTokenCache env)
}.

(** The fields of the client that only the setters write. *)
Definition same_config (n n' : Notify) : Prop :=
  corpID n' = corpID n /\ agentID n' = agentID n /\
  appSecret n' = appSecret n /\ TokenPersist n' = TokenPersist n /\
  CacheFilePath n' = CacheFilePath n.

(** The system calls made between two worlds of one run. *)
Definition new_calls (before after : World) : list syscall :=
  drop (length (syslog (disk before))) (syslog (disk after)).

Definition is_read (c : syscall) : bool :=
  match c with SysReadFile _ => true | _ => false end.

(** The token requests and the lines printed between two worlds. *)
Definition new_token_gets (before after : World) : list (string * string) :=
  drop (length (token_gets (net before))) (token_gets (net after)).

Definition new_stdout (before after : World) : list string :=
  drop (length (stdout (net before))) (stdout (net after)).

(** A method makes at most [p] posts and [t] token requests. *)
Definition traffic (p t : nat) {A} (m : M A) : Prop :=
  forall n w, exists lp lt,
    posts (net (m n w).2) = (posts (net w) ++ lp)%list /\
    token_gets (net (m n w).2) = (token_gets (net w) ++ lt)%list /\
    (length lp <= p)%nat /\ (length lt <= t)%nat.

(** At least one of the three receiver fields is set. *)
Definition receiver_set (r : MessageReceiver) : Prop :=
  ToUser r <> EmptyString \/ ToParty r <> EmptyString
  \/ ToTag r <> EmptyString.

(** The body [Send] has built when it calls [sendInternal] for a message
    [k] of the package. *)
Definition Send_body (receiver : MessageReceiver) (k : MessageKey)
    (options : option MessageOptions) (n : Notify) : msgBody :=
  let body : msgBody := ∅ in
  let body := <[ "touser" := VString (ToUser receiver) ]> body in
  let body := <[ "toparty" := VString (ToParty receiver) ]> body in
  let body := <[ "totag" := VString (ToTag receiver) ]> body in
  let body := <[ "agentid" := VInt (agentID n) ]> body in
  let body := setOptions body options in
  let body := <[ "msgtype" := VString (key k) ]> body in
  <[ key k := VMessage k ]> body.

(** ** More sample runs *)

Module MoreSamples.

(** A client as [New] leaves it, holding a token: persistence is off. *)
Definition client_plain : Notify :=
  {| corpID := "corp"; agentID := 7; appSecret := "sec";
     TokenPersist := false; Token := "tok"; TokenExpiresAt := 7200;
     CacheFilePath := ".notify" |}.

(** The sixth system call fails: for a cache path with a directory that
    is the rename of the save. *)
Definition env_rename_fails : Env :=
  GoStd.mkEnv 100 (fun _ => HttpOk Samples.token_ok)
    (fun _ => HttpOk zeroMessageResult)
    (fun i => if Nat.eqb i 5 then Some "invalid cross-device link" else None).

(** The part of a path after its last slash. *)
Fixpoint after_slash (s : string) : option string :=
  match s with
  | EmptyString => None
  | String c r =>
      match after_slash r with
      | Some b => Some b
      | None => if Ascii.eqb c "/"%char then Some r else None
      end
  end.

Definition Base (path : string) : string :=
  match after_slash path with
  | Some b => b
  | None => path
  end.

Definition upload_expired : UploadMediaResult :=
  {| um_ErrorCode := 42001; um_ErrorMsg := "access_token expired";
     um_Type := EmptyString; um_MediaID := EmptyString;
     um_CreatedAt := EmptyString |}.

(** The upload endpoint answers every post with code 42001. *)
Definition uenv_expired : UploadEnv :=
  {| up_env := Samples.env_quiet; filepath_Base := Base;
     open_fault := fun _ => None; formfile_fault := fun _ => None;
     copy_fault := fun _ => None;
     upload_reply := fun _ => HttpOk upload_expired |}.

(** The same with an unreachable credential-exchange endpoint. *)
Definition uenv_token_down : UploadEnv :=
  {| up_env := Samples.env_token_down; filepath_Base := Base;
     open_fault := fun _ => None; formfile_fault := fun _ => None;
     copy_fault := fun _ => None;
     upload_reply := fun _ => HttpOk upload_expired |}.

(** A disk that holds one picture. *)
Definition uworld_media : UploadWorld :=
  {| up_world :=
       {| net := net GoStd.emptyWorld;
          disk := {| fs := {| files :=
                                {[ "media/logo.png" :=
                                     {| data := "PNG-bytes"; synced := true |} ]};
                              dirs := ∅ |};
                     syslog := [] |} |};
     upload_calls := 0;
     uploads := [] |}.

Definition logo : UploadMedia :=
  {| Media_Type := "image"; Media_Path := "media/logo.png" |}.

Definition missing : UploadMedia :=
  {| Media_Type := "image"; Media_Path := "media/none.png" |}.

Definition hello_text : MessageKey := KText {| Text_Content := "hello" |}.

End MoreSamples.

(** * Properties *)

(** ** Unfolding the methods *)

Ltac run :=
  unfold bind, ret, get_client, put_client, time_Now_Unix, fmt_Println,
    http_Get_gettoken, http_Post_send, os_ReadFile, os_MkdirAll, os_Create,
    file_Write, file_Sync, file_Close, os_Remove, os_Rename; simpl.

(** Case analysis on every test the goal still branches on. *)
Ltac split_cases := repeat (case_match; simpl in *; simplify_eq; try done).

Lemma wrap64_in_range z : int64_range z -> wrap64 z = z.
Proof.
  unfold int64_range, wrap64. intros H.
  rewrite Z.mod_small by lia. lia.
Qed.

Lemma add64_in_range a b : int64_range (a + b) -> add64 a b = a + b.
Proof. apply wrap64_in_range. Qed.

Lemma wrap64_range z : int64_range (wrap64 z).
Proof.
  unfold int64_range, wrap64.
  pose proof (Z.mod_pos_bound (z + 2 ^ 63) (2 ^ 64)). lia.
Qed.

(** ** Saving touches neither the client nor the network *)

Lemma saveTokenCache_frame env n w :
  (saveTokenCache env n w).1.2 = n /\
  net (saveTokenCache env n w).2 = net w.
Proof.
  unfold saveTokenCache. run.
  destruct (TokenPersist n); simpl; [|done].
  destruct (json_Marshal env n); simpl; [done|].
  destruct (String.eqb _ "."); simpl; unfold fault_now; simpl;
    split_cases.
Qed.

Lemma tokenValid_client env n w : (tokenValid env n w).1.2 = n.
Proof. unfold tokenValid. run. by destruct (String.eqb (Token n) ""). Qed.

Lemma tokenValid_world env n w :
  (tokenValid env n w).2 = if String.eqb (Token n) "" then w else tick w.
Proof. unfold tokenValid. run. by destruct (String.eqb (Token n) ""). Qed.

Lemma tokenValid_value env n w :
  (tokenValid env n w).1.1 =
  negb (String.eqb (Token n) "")
  && (time_at env (ticks (net w)) <? TokenExpiresAt n)%Z.
Proof. unfold tokenValid. run. by destruct (String.eqb (Token n) ""). Qed.

(** ** GetToken *)

(** The outcome of [GetToken] spelled out by cases. *)
Lemma GetToken_unfold env n w :
  GetToken env n w =
  if (tokenValid env n w).1.1
  then (Token n, TokenExpiresAt n, None, n, (tokenValid env n w).2)
  else
    let w1 := (tokenValid env n w).2 in
    let '(res, _, w2) := http_Get_gettoken env (corpID n) (appSecret n) n w1 in
    match res with
    | HttpFail e => ("", 0, Some ("token get request error: " +:+ e), n, w2)
    | HttpBadBody e _ =>
        ("", 0, Some ("token result decode error: " +:+ e), n, w2)
    | HttpOk tokenRes =>
        if (gt_ErrorCode tokenRes =? 0)%Z then
          let n' := set_TokenExpiresAt
                      (add64 (time_at env (ticks (net w2)))
                             (gt_ExpiresIn tokenRes))
                      (set_Token (gt_Token tokenRes) n) in
          (gt_Token tokenRes, TokenExpiresAt n', None, n',
           (saveTokenCache env n' (tick w2)).2)
        else ("", 0, Some ("token get error: " +:+ gt_ErrorMsg tokenRes), n, w2)
    end.
Proof.
  unfold GetToken at 1. unfold bind at 1.
  pose proof (tokenValid_client env n w) as Hc.
  destruct (tokenValid env n w) as [[valid n1] w1]. simpl in *. subst n1.
  run. destruct valid; [done|].
  destruct (token_reply env _) as [e|e pt|tr]; simpl; try done.
  destruct (gt_ErrorCode tr =? 0)%Z; simpl; [|done].
  match goal with
  | |- context [saveTokenCache env ?a ?b] =>
      pose proof (saveTokenCache_frame env a b) as [Hn _];
      destruct (saveTokenCache env a b) as [[r n2] w3]
  end.
  simpl in *. by subst n2.
Qed.

(** C4.  When the token in memory is not empty and the clock shows a time
    strictly before [TokenExpiresAt], [GetToken] returns that token and
    expiry with a nil error; the client is unchanged, no request is sent
    to either endpoint and the disk is not touched. *)
Theorem GetToken_cached env n w :
  Token n <> "" ->
  time_at env (ticks (net w)) < TokenExpiresAt n ->
  (GetToken env n w).1.1 = (Token n, TokenExpiresAt n, None) /\
  (GetToken env n w).1.2 = n /\
  token_gets (net (GetToken env n w).2) = token_gets (net w) /\
  posts (net (GetToken env n w).2) = posts (net w) /\
  disk (GetToken env n w).2 = disk w.
Proof.
  intros Htok Hnow. rewrite GetToken_unfold.
  rewrite tokenValid_value, tokenValid_world.
  apply String.eqb_neq in Htok. rewrite Htok. simpl.
  apply Z.ltb_lt in Hnow. rewrite Hnow. simpl. done.
Qed.

(** C10.  Whenever [GetToken] returns an error (the request failed, the
    body did not decode, or the remote error code is not zero) the client
    is exactly as it was before the call: [Token] and [TokenExpiresAt]
    are written only on a successful refresh. *)
Theorem GetToken_error_keeps_client env n w e :
  (GetToken env n w).1.1.2 = Some e ->
  (GetToken env n w).1.2 = n /\
  (GetToken env n w).1.1.1 = ("", 0).
Proof.
  rewrite GetToken_unfold.
  destruct (tokenValid env n w).1.1; simpl; [done|].
  destruct (token_reply env _) as [e'|e' pt|tr]; simpl; try done.
  destruct (gt_ErrorCode tr =? 0)%Z; simpl; done.
Qed.

(** C5.  When [GetToken] has to refresh (the token is empty or no longer
    valid by the clock) it sends one request to the credential-exchange
    endpoint, and then: a failed request and an undecodable body come
    back as errors wrapping the cause; a decoded answer with a non-zero
    error code comes back as an error carrying the remote message; a
    decoded answer with code zero stores its token and the expiry
    [now + expires_in] (the [int64] sum, equal to the integer sum when
    that fits) in the client and returns them with a nil error. *)
Theorem GetToken_refresh env n w :
  (tokenValid env n w).1.1 = false ->
  let w1 := (tokenValid env n w).2 in
  let out := GetToken env n w in
  token_gets (net out.2)
  = (token_gets (net w) ++ [(corpID n, appSecret n)])%list /\
  match token_reply env (length (token_gets (net w))) with
  | HttpFail e =>
      out.1.1 = ("", 0, Some ("token get request error: " +:+ e))
  | HttpBadBody e _ =>
      out.1.1 = ("", 0, Some ("token result decode error: " +:+ e))
  | HttpOk tokenRes =>
      if (gt_ErrorCode tokenRes =? 0)%Z then
        let now := time_at env (ticks (net w1)) in
        let expiresAt := add64 now (gt_ExpiresIn tokenRes) in
        out.1.1 = (gt_Token tokenRes, expiresAt, None) /\
        Token out.1.2 = gt_Token tokenRes /\
        TokenExpiresAt out.1.2 = expiresAt /\
        (int64_range (now + gt_ExpiresIn tokenRes) ->
         expiresAt = now + gt_ExpiresIn tokenRes)
      else
        out.1.1 = ("", 0, Some ("token get error: " +:+ gt_ErrorMsg tokenRes))
  end.
Proof.
  intros Hv w1 out. subst out. rewrite GetToken_unfold, Hv. fold w1.
  assert (Hg : token_gets (net w1) = token_gets (net w)).
  { subst w1. rewrite tokenValid_world. by destruct (String.eqb _ _). }
  run. rewrite Hg.
  destruct (token_reply env _) as [e'|e' pt|tr]; simpl; try done.
  destruct (gt_ErrorCode tr =? 0)%Z; simpl; [|done].
  match goal with
  | |- context [saveTokenCache env ?a ?b] =>
      pose proof (saveTokenCache_frame env a b) as [_ Hnet]
  end.
  rewrite Hnet. simpl.
  repeat split; try done. apply add64_in_range.
Qed.

(** ** Persistence is invisible to the caller *)

Lemma agree_ret {A} (a : A) : agreeM (ret a) (ret a).
Proof. by intros n w1 w2 H. Qed.

Lemma agree_bind {A B} (m1 m2 : M A) (k1 k2 : A -> M B) :
  agreeM m1 m2 -> (forall a, agreeM (k1 a) (k2 a)) ->
  agreeM (bind m1 k1) (bind m2 k2).
Proof.
  intros Hm Hk n w1 w2 Hw. unfold bind.
  specialize (Hm n w1 w2 Hw).
  destruct (m1 n w1) as [[a1 n1] w1'], (m2 n w2) as [[a2 n2] w2'].
  destruct Hm as (Ha & Hn & Hw'). simpl in *. subst.
  by apply Hk.
Qed.

(** A step whose result is dropped and which leaves client and network
    alone may differ freely between the two runs. *)
Lemma agree_bind_framed {A1 A2 B} (m1 : M A1) (m2 : M A2)
    (k1 : A1 -> M B) (k2 : A2 -> M B) :
  (forall n w, (m1 n w).1.2 = n /\ net (m1 n w).2 = net w) ->
  (forall n w, (m2 n w).1.2 = n /\ net (m2 n w).2 = net w) ->
  (forall a b, agreeM (k1 a) (k2 b)) ->
  agreeM (bind m1 k1) (bind m2 k2).
Proof.
  intros H1 H2 Hk n w1 w2 Hw. unfold bind.
  specialize (H1 n w1). specialize (H2 n w2).
  destruct (m1 n w1) as [[a1 n1] w1'], (m2 n w2) as [[a2 n2] w2'].
  simpl in *. destruct H1 as [-> H1], H2 as [-> H2].
  apply Hk. congruence.
Qed.

Lemma agree_get_client : agreeM get_client get_client.
Proof. by intros n w1 w2 H. Qed.

Lemma agree_put_client n' : agreeM (put_client n') (put_client n').
Proof. by intros n w1 w2 H. Qed.

Section SameRemote.

Variables e1 e2 : Env.
Hypothesis Hrem : same_remote e1 e2.

Lemma agree_time_Now_Unix : agreeM (time_Now_Unix e1) (time_Now_Unix e2).
Proof.
  destruct Hrem as (Ht & _). intros n w1 w2 H.
  unfold time_Now_Unix, agree, tick. simpl. by rewrite Ht, H.
Qed.

Lemma agree_fmt_Println s : agreeM (fmt_Println s) (fmt_Println s).
Proof. intros n w1 w2 H. unfold fmt_Println, agree. simpl. by rewrite H. Qed.

Lemma agree_http_Get_gettoken c k :
  agreeM (http_Get_gettoken e1 c k) (http_Get_gettoken e2 c k).
Proof.
  destruct Hrem as (_ & Ht & _). intros n w1 w2 H.
  unfold http_Get_gettoken, agree. simpl. by rewrite Ht, H.
Qed.

Lemma agree_http_Post_send t b :
  agreeM (http_Post_send e1 t b) (http_Post_send e2 t b).
Proof.
  destruct Hrem as (_ & _ & Hs). intros n w1 w2 H.
  unfold http_Post_send, agree. simpl. by rewrite Hs, H.
Qed.

Lemma agree_tokenValid : agreeM (tokenValid e1) (tokenValid e2).
Proof.
  unfold tokenValid. apply agree_bind; [apply agree_get_client|].
  intros n. destruct (String.eqb (Token n) ""); [apply agree_ret|].
  apply agree_bind; [apply agree_time_Now_Unix|]. intros. apply agree_ret.
Qed.

Lemma agree_GetToken : agreeM (GetToken e1) (GetToken e2).
Proof.
  unfold GetToken.
  apply agree_bind; [apply agree_tokenValid|]. intros valid.
  apply agree_bind; [apply agree_get_client|]. intros n.
  destruct valid; [apply agree_ret|].
  apply agree_bind; [apply agree_http_Get_gettoken|].
  intros [e|e pt|tr]; try apply agree_ret.
  destruct (negb _); [apply agree_ret|].
  apply agree_bind; [apply agree_time_Now_Unix|]. intros now.
  apply agree_bind; [apply agree_put_client|]. intros _.
  apply agree_bind_framed; try (intros; apply saveTokenCache_frame).
  intros _ _. apply agree_bind; [apply agree_get_client|].
  intros. apply agree_ret.
Qed.

Lemma agree_sendMessage b : agreeM (sendMessage e1 b) (sendMessage e2 b).
Proof.
  unfold sendMessage.
  apply agree_bind; [apply agree_get_client|]. intros n.
  apply agree_bind; [apply agree_http_Post_send|].
  intros [e|e pt|r]; apply agree_ret.
Qed.

Lemma agree_sendInternal b : agreeM (sendInternal e1 b) (sendInternal e2 b).
Proof.
  unfold sendInternal.
  apply agree_bind; [apply agree_GetToken|]. intros [[token x] [e|]];
    [apply agree_ret|].
  apply agree_bind; [apply agree_fmt_Println|]. intros _.
  apply agree_bind; [apply agree_sendMessage|]. intros [result err].
  destruct (_ && _); [|apply agree_ret].
  apply agree_bind; [apply agree_GetToken|]. intros [[token' x'] err'].
  apply agree_bind; [apply agree_fmt_Println|]. intros _.
  destruct err'; [apply agree_ret|].
  apply agree_bind; [apply agree_sendMessage|]. intros [result' err''].
  apply agree_ret.
Qed.

Lemma agree_Send r m o : agreeM (Send e1 r m o) (Send e2 r m o).
Proof.
  unfold Send.
  destruct m; [apply agree_ret| |].
  all: destruct (_ && _); [apply agree_ret|].
  all: apply agree_bind; [apply agree_get_client|]; intros n; simpl.
  - apply agree_sendInternal.
  - apply agree_ret.
Qed.

End SameRemote.

Lemma same_remote_with_storage s e : same_remote (with_storage s e) e.
Proof. by unfold same_remote. Qed.


(** ** The cache file changes in one step *)

Lemma length_append (a b : string) :
  String.length (a +:+ b) = (String.length a + String.length b)%nat.
Proof. induction a as [|c a IH]; simpl; [done|by rewrite IH]. Qed.

Lemma tmp_path_ne (p : string) : p +:+ ".tmp" <> p.
Proof.
  intros H. apply (f_equal String.length) in H.
  rewrite length_append in H. simpl in H. lia.
Qed.

Lemma apply_call_other c s p :
  writes_to c p = false -> files (apply_call c s) !! p = files s !! p.
Proof.
  destruct c as [q|d ok|q ok|q wr|q ok|q|q ok|src dst ok]; simpl;
    try destruct ok; simpl; try done.
  - intros H%String.eqb_neq. by rewrite lookup_insert_ne.
  - intros H%String.eqb_neq. by rewrite lookup_alter_ne.
  - intros H%String.eqb_neq. by rewrite lookup_alter_ne.
  - intros H%String.eqb_neq. by rewrite lookup_delete_ne.
  - intros H%orb_false_elim. destruct H as [H1%String.eqb_neq H2%String.eqb_neq].
    destruct (files s !! src); simpl; [|done].
    by rewrite lookup_insert_ne, lookup_delete_ne.
Qed.

Lemma replay_other cs s p :
  forallb (fun c => negb (writes_to c p)) cs = true ->
  files (replay cs s) !! p = files s !! p.
Proof.
  revert s. induction cs as [|c cs IH]; intros s; simpl; [done|].
  intros [Hc Hcs]%andb_prop. unfold replay in *. simpl.
  rewrite IH by done. apply apply_call_other. by destruct (writes_to c p).
Qed.

Ltac case_faults env :=
  repeat match goal with
  | |- context [fs_fault env ?i] =>
      lazymatch goal with
      | |- context [match fs_fault env i with _ => _ end] => idtac
      | |- context [is_nil (fs_fault env i)] => idtac
      end;
      let H := fresh "Hf" in destruct (fs_fault env i) eqn:H; simpl
  end.


(** C6.  Take any run of [saveTokenCache] and cut it after any number
    [k] of its system calls.  What is found under the cache path is then
    either what was there before the save, or, only when all the calls
    have been made and the save returned nil, a synced file holding
    exactly the bytes [json.Marshal] gave.  So an interrupted or failed
    save leaves the cache file as it was, and no partial content is ever
    visible under the cache path. *)
Theorem saveTokenCache_atomic env n w (k : nat) :
  let cs := save_calls env n w in
  let old := cache_file (fs (disk w)) n in
  let seen := cache_file (replay (take k cs) (fs (disk w))) n in
  let out := saveTokenCache env n w in
  (syslog (disk out.2) = (syslog (disk w) ++ cs)%list /\
   fs (disk out.2) = replay cs (fs (disk w))) /\
  (seen = old \/
   (length cs <= k)%nat /\ out.1.1 = None /\
   exists b, json_Marshal env n = inr b /\
             seen = Some {| data := b; synced := true |}).
Proof.
  intros cs old seen out. subst cs old seen out.
  unfold save_calls, cache_file, saveTokenCache. run.
  pose proof (tmp_path_ne (CacheFilePath n)) as Hne.
  apply String.eqb_neq in Hne.
  destruct (TokenPersist n); simpl.
  2:{ rewrite drop_all. rewrite app_nil_r. destruct k; simpl; auto. }
  destruct (json_Marshal env n) as [e|b]; simpl.
  { rewrite drop_all. rewrite app_nil_r. destruct k; simpl; auto. }
  destruct (String.eqb _ "."); simpl; unfold fault_now; simpl.
  all: case_faults env.
  all: rewrite <- ?app_assoc; simpl; rewrite ?drop_app_length.
  all: try (rewrite drop_all, app_nil_r).
  all: (split; [split; [reflexivity|unfold replay; reflexivity]|]).
  all: destruct k as [|[|[|[|[|[|[|k]]]]]]]; simpl take.
  all: try (left; apply replay_other; simpl; rewrite ?Hne; reflexivity).
  all: right; (split; [simpl; lia|]); (split; [reflexivity|]);
       exists b; (split; [reflexivity|]); unfold replay; simpl.
  all: rewrite !lookup_alter_eq, lookup_insert_eq; simpl.
  all: by rewrite lookup_insert_eq.
Qed.

(** A save that returns nil has put the marshalled client, synced, under
    the cache path. *)
Lemma saveTokenCache_success env n w :
  (saveTokenCache env n w).1.1 = None ->
  exists b, json_Marshal env n = inr b /\
    cache_file (fs (disk (saveTokenCache env n w).2)) n
    = Some {| data := b; synced := true |}.
Proof.
  unfold cache_file, saveTokenCache. run.
  destruct (TokenPersist n); simpl; [|done].
  destruct (json_Marshal env n) as [e|b]; simpl; [done|].
  destruct (String.eqb _ "."); simpl; unfold fault_now; simpl.
  all: case_faults env; try done.
  all: intros _; exists b; split; [done|].
  all: rewrite !lookup_alter_eq, lookup_insert_eq; simpl.
  all: by rewrite lookup_insert_eq.
Qed.

(** ** Loading the cache *)

(** [New] leaves persistence off, and [loadTokenCache] gives up at once
    when it is off: the constructor never reads the cache file. *)
Lemma New_never_loads env corp agent secret w :
  New env corp agent secret w =
  ({| corpID := corp; agentID := agent; appSecret := secret;
      TokenPersist := false; Token := ""; TokenExpiresAt := 0;
      CacheFilePath := ".notify" |}, w).
Proof. reflexivity. Qed.

Lemma fresh_manager_eq env corp agent secret path w :
  fresh_manager env corp agent secret path w =
  ({| corpID := corp; agentID := agent; appSecret := secret;
      TokenPersist := true; Token := ""; TokenExpiresAt := 0;
      CacheFilePath := path |}, w).
Proof. reflexivity. Qed.

(** With persistence on, a readable cache file and a content that
    decodes, the load adopts the cached pair exactly when the clock is
    not after the cached expiry. *)
Lemma loadTokenCache_readable env n w f cache :
  TokenPersist n = true ->
  fs_fault env (length (syslog (disk w))) = None ->
  cache_file (fs (disk w)) n = Some f ->
  json_Unmarshal env (data f) = inr cache ->
  (loadTokenCache env n w).1 =
  if (time_at env (ticks (net w)) >? TokenExpiresAt cache)%Z
  then (Some "token expired", n)
  else (None, set_TokenExpiresAt (TokenExpiresAt cache)
                (set_Token (Token cache) n)).
Proof.
  unfold cache_file, loadTokenCache. run.
  intros -> Hfault Hfile Hdec. simpl. unfold fault_now.
  rewrite Hfault, Hfile, Hdec. simpl.
  by destruct (_ >? _)%Z.
Qed.


(** ** The envelope *)

Lemma posts_only_ret b {A} (a : A) : posts_only b (ret a).
Proof. intros n w. exists []. by rewrite app_nil_r. Qed.

Lemma posts_only_bind b {A B} (m : M A) (k : A -> M B) :
  posts_only b m -> (forall a, posts_only b (k a)) -> posts_only b (bind m k).
Proof.
  intros Hm Hk n w. unfold bind. destruct (Hm n w) as (l1 & H1 & F1).
  destruct (m n w) as [[a n1] w1]. simpl in *.
  destruct (Hk a n1 w1) as (l2 & H2 & F2).
  exists (l1 ++ l2)%list. split.
  - by rewrite H2, H1, app_assoc.
  - by apply Forall_app.
Qed.

Lemma posts_only_quiet b {A} (m : M A) :
  (forall n w, posts (net (m n w).2) = posts (net w)) -> posts_only b m.
Proof. intros H n w. exists []. by rewrite app_nil_r. Qed.

Lemma GetToken_posts env n w :
  posts (net (GetToken env n w).2) = posts (net w).
Proof.
  rewrite GetToken_unfold, tokenValid_world.
  assert (Hp : posts (net (if String.eqb (Token n) "" then w else tick w))
               = posts (net w)) by (by destruct (String.eqb _ _)).
  destruct (tokenValid env n w).1.1; simpl; [done|]. run.
  destruct (token_reply env _) as [e|e pt|tr]; simpl; try done.
  destruct (gt_ErrorCode tr =? 0)%Z; simpl; [|done].
  match goal with
  | |- context [saveTokenCache env ?a ?b] =>
      pose proof (saveTokenCache_frame env a b) as [_ Hnet]
  end.
  by rewrite Hnet.
Qed.

Lemma posts_only_sendMessage env b : posts_only b (sendMessage env b).
Proof.
  intros n w. exists [(Token n, b)]. unfold sendMessage. run.
  split; [by destruct (send_reply env _)|].
  by apply Forall_singleton.
Qed.

Lemma posts_only_sendInternal env b : posts_only b (sendInternal env b).
Proof.
  unfold sendInternal.
  apply posts_only_bind;
    [apply posts_only_quiet; intros; apply GetToken_posts|].
  intros [[token x] [e|]]; [apply posts_only_ret|].
  apply posts_only_bind; [by apply posts_only_quiet|]. intros _.
  apply posts_only_bind; [apply posts_only_sendMessage|].
  intros [result err]. destruct (_ && _); [|apply posts_only_ret].
  apply posts_only_bind;
    [apply posts_only_quiet; intros; apply GetToken_posts|].
  intros [[token' x'] err'].
  apply posts_only_bind; [by apply posts_only_quiet|]. intros _.
  destruct err'; [apply posts_only_ret|].
  apply posts_only_bind; [apply posts_only_sendMessage|].
  intros [result' err'']. apply posts_only_ret.
Qed.

Lemma posts_only_new b {A} (m : M A) n w tb :
  posts_only b m -> tb ∈ new_posts w (m n w).2 -> tb.2 = b.
Proof.
  intros Hm. destruct (Hm n w) as (l & Hl & F). unfold new_posts.
  rewrite Hl, drop_app_length. intros Hin.
  by apply (proj1 (Forall_forall _ _) F).
Qed.

(** The interval field after [setOptions], for a body that did not have
    it before. *)
Lemma setOptions_interval (body : msgBody) options :
  body !! "duplicate_check_interval" = None ->
  setOptions body options !! "duplicate_check_interval" =
  match options with
  | Some o =>
      if EnableDuplicateCheck o && negb (DuplicateCheckInterval o =? 0)%Z
      then Some (VInt (DuplicateCheckInterval o))
      else None
  | None => None
  end.
Proof.
  intros H. destruct options as [o|]; simpl; [|done].
  destruct (Safe o), (EnableIDTrans o), (EnableDuplicateCheck o); simpl;
    try destruct (negb _); simpl;
    by rewrite ?lookup_insert_eq, ?lookup_insert_ne.
Qed.

(** C9.  Every body [Send] posts has the field
    [duplicate_check_interval] exactly when options are given with
    [EnableDuplicateCheck] set and a non-zero [DuplicateCheckInterval],
    and then with that interval as its value; so the field is there only
    when [EnableDuplicateCheck] is true. *)
Theorem Send_duplicate_check_interval env receiver message options n w
    (token : string) (body : msgBody) :
  (token, body) ∈ new_posts w (Send env receiver message options n w).2 ->
  body !! "duplicate_check_interval" =
    match options with
    | Some o =>
        if EnableDuplicateCheck o && negb (DuplicateCheckInterval o =? 0)%Z
        then Some (VInt (DuplicateCheckInterval o))
        else None
    | None => None
    end /\
  (is_Some (body !! "duplicate_check_interval") ->
   exists o, options = Some o /\ EnableDuplicateCheck o = true).
Proof.
  intros Hin.
  assert (Hnone : (token, body) ∈ new_posts w w -> False).
  { unfold new_posts. rewrite drop_all. apply not_elem_of_nil. }
  assert (Hfield : body !! "duplicate_check_interval" =
    match options with
    | Some o =>
        if EnableDuplicateCheck o && negb (DuplicateCheckInterval o =? 0)%Z
        then Some (VInt (DuplicateCheckInterval o))
        else None
    | None => None
    end).
  { unfold Send in Hin.
    destruct message as [|k|ty]; [by apply Hnone in Hin| |].
    all: destruct (_ && _); [by apply Hnone in Hin|].
    all: unfold bind at 1, get_client in Hin; simpl in Hin.
    2: by apply Hnone in Hin.
    apply (posts_only_new _ _ _ _ _ (posts_only_sendInternal env _)) in Hin.
    simpl in Hin. subst body.
    rewrite lookup_insert_ne by (destruct k; simpl; discriminate).
    rewrite lookup_insert_ne by done.
    apply setOptions_interval.
    by rewrite !lookup_insert_ne. }
  split; [done|].
  rewrite Hfield. destruct options as [o|]; [|by intros [? ?]].
  destruct (EnableDuplicateCheck o) eqn:E; simpl; [by eauto|by intros [? ?]].
Qed.

(** ** Validation in Send *)


(** ** The retry in sendInternal *)

Lemma GetToken_fast_path env n w :
  Token n <> "" ->
  time_at env (ticks (net w)) < TokenExpiresAt n ->
  GetToken env n w = (Token n, TokenExpiresAt n, None, n, tick w).
Proof.
  intros Htok Hnow. rewrite GetToken_unfold.
  rewrite tokenValid_value, tokenValid_world.
  apply String.eqb_neq in Htok. rewrite Htok. simpl.
  apply Z.ltb_lt in Hnow. by rewrite Hnow.
Qed.

(** When the first post is answered with one of the two token codes and
    the token in memory is still valid by the clock, the second
    [GetToken] returns the same token from memory: no request goes to
    the credential-exchange endpoint, the message is posted a second
    time with the token that was just refused, and the error returned is
    nil whatever the second post gives. *)
Lemma sendInternal_retry_cached env body n w r1 :
  Token n <> "" ->
  time_at env (ticks (net w)) < TokenExpiresAt n ->
  time_at env (S (ticks (net w))) < TokenExpiresAt n ->
  send_reply env (length (posts (net w))) = HttpOk r1 ->
  ErrorCode r1 = 42001 \/ ErrorCode r1 = 40014 ->
  let out := sendInternal env body n w in
  token_gets (net out.2) = token_gets (net w) /\
  new_posts w out.2 = [(Token n, body); (Token n, body)] /\
  out.1.1.2 = None.
Proof.
  intros Htok Hnow1 Hnow2 Hr Hcode out.
  remember (length (posts (net w))) as i eqn:Hi.
  assert (E : out = sendInternal env body n w) by done. clearbody out.
  unfold sendInternal in E. unfold bind at 1 in E.
  rewrite GetToken_fast_path in E by done.
  unfold bind at 1 in E. unfold fmt_Println at 1 in E.
  unfold bind at 1 in E. unfold sendMessage at 1 in E.
  unfold bind, get_client, http_Post_send, ret in E. simpl in E.
  rewrite <- Hi, Hr in E. simpl in E.
  replace ((ErrorCode r1 =? 42001)%Z || (ErrorCode r1 =? 40014)%Z)
    with true in E by (by destruct Hcode as [-> | ->]).
  simpl in E. rewrite GetToken_fast_path in E by done.
  unfold fmt_Println, sendMessage, bind, get_client, http_Post_send, ret in E.
  simpl in E. unfold new_posts. clear Hr. subst i.
  destruct (send_reply env _) as [e|e pt|r2]; subst out; simpl.
  all: rewrite <- ?app_assoc, drop_app_length; done.
Qed.

(** Once the retry block is entered, [sendInternal] returns a nil error:
    an error of the second [GetToken] or of the second post is lost. *)
Lemma sendInternal_retry_error_dropped env body n w r1 :
  (GetToken env n w).1.1.2 = None ->
  send_reply env (length (posts (net w))) = HttpOk r1 ->
  ErrorCode r1 = 42001 \/ ErrorCode r1 = 40014 ->
  (sendInternal env body n w).1.1.2 = None.
Proof.
  intros Hget Hr Hcode. unfold sendInternal. unfold bind at 1.
  pose proof (GetToken_posts env n w) as Hp.
  destruct (GetToken env n w) as [[[[token x] err] n1] w1].
  simpl in *. subst err.
  unfold bind at 1. unfold fmt_Println at 1.
  unfold bind at 1. unfold sendMessage at 1. run.
  rewrite Hp, Hr. simpl.
  replace ((ErrorCode r1 =? 42001)%Z || (ErrorCode r1 =? 40014)%Z)
    with true by (by destruct Hcode as [-> | ->]).
  simpl.
  match goal with
  | |- context [GetToken env ?a ?b] =>
      destruct (GetToken env a b) as [[[[token' x'] err'] n2] w2]
  end.
  simpl. destruct err'; simpl; [done|].
  clear Hr. unfold sendMessage. run.
  by destruct (send_reply env _).
Qed.

(** C1, on the code.  The client holds a token that is valid by the
    clock; the service answers the first post with code 42001 and the
    second post fails in transport.  [Send] then makes no request to the
    credential-exchange endpoint at all, posts twice with the same
    token, and returns the zero result with a nil error: the token is
    not refreshed and the failure of the second attempt is not
    returned. *)
Theorem Send_retry_without_refresh :
  let out := Send Samples.env_expired_then_reset Samples.to_alice
               Samples.hello None Samples.client_cached GoStd.emptyWorld in
  token_gets (net out.2) = [] /\
  map fst (posts (net out.2)) = ["tok"; "tok"] /\
  out.1.1 = (zeroMessageResult, None) /\
  out.1.2 = Samples.client_cached.
Proof. vm_compute. repeat split. Qed.

(** ** The expiry test of the cache load *)


(** With persistence on and a cache file that reads and decodes, the
    load returns nil exactly when the clock is at or before the cached
    expiry, and then the client holds the cached pair; otherwise the
    client is unchanged. *)
Lemma loadTokenCache_adopts_iff env n w f cache :
  TokenPersist n = true ->
  fs_fault env (length (syslog (disk w))) = None ->
  cache_file (fs (disk w)) n = Some f ->
  json_Unmarshal env (data f) = inr cache ->
  ((loadTokenCache env n w).1.1 = None <->
   time_at env (ticks (net w)) <= TokenExpiresAt cache) /\
  ((loadTokenCache env n w).1.1 = None ->
   Token (loadTokenCache env n w).1.2 = Token cache /\
   TokenExpiresAt (loadTokenCache env n w).1.2 = TokenExpiresAt cache) /\
  ((loadTokenCache env n w).1.1 <> None -> (loadTokenCache env n w).1.2 = n).
Proof.
  intros Hp Hf Hfile Hdec.
  destruct (loadTokenCache env n w) as [[r n'] w'] eqn:E.
  pose proof (loadTokenCache_readable env n w f cache Hp Hf Hfile Hdec) as H.
  rewrite E in H. simpl in *.
  destruct (_ >? _)%Z eqn:Hc; simplify_eq; simpl.
  - apply Z.gtb_lt in Hc. repeat split; try done. lia.
  - rewrite Z.gtb_ltb in Hc. apply Z.ltb_ge in Hc. repeat split; try done.
Qed.

(** ** The reference codec gives back what it wrote *)

Section Codec.

Local Arguments String.append !_ _ / : simpl nomatch.

Lemma append_assoc (a b c : string) : (a +:+ b) +:+ c = a +:+ (b +:+ c).
Proof. induction a as [|x a IH]; simpl; [done|by f_equal]. Qed.

Lemma substring_all (s : string) : substring 0 (String.length s) s = s.
Proof. induction s as [|c s IH]; simpl; [done|by rewrite IH]. Qed.

Lemma read_string_body_escape s rest :
  GoStd.read_string_body (GoStd.escape s +:+ String GoStd.quote rest)
  = Some (s, rest).
Proof.
  induction s as [|c s IH]; [done|].
  simpl. destruct (Ascii.eqb c GoStd.quote) eqn:Eq.
  - apply Ascii.eqb_eq in Eq. subst c. simpl. by rewrite IH.
  - destruct (Ascii.eqb c GoStd.backslash) eqn:Eb.
    + apply Ascii.eqb_eq in Eb. subst c. simpl. by rewrite IH.
    + simpl. by rewrite Eq, Eb, IH.
Qed.

Lemma read_value_string s rest :
  GoStd.read_value (GoStd.print_string s +:+ rest) = Some (GoStd.JString s, rest).
Proof.
  unfold GoStd.print_string. rewrite append_assoc. simpl.
  by rewrite read_string_body_escape.
Qed.

Lemma read_value_bool b rest :
  GoStd.read_value (GoStd.print_bool b +:+ rest) = Some (GoStd.JBool b, rest).
Proof.
  destruct b; simpl; rewrite Nat.sub_0_r, substring_all; by destruct rest.
Qed.

Lemma digit_char_spec d :
  0 <= d < 10 ->
  GoStd.is_digit (GoStd.digit_char d) = true /\
  Z.of_nat (nat_of_ascii (GoStd.digit_char d) - 48) = d.
Proof.
  intros H.
  assert (Hd : d = 0 \/ d = 1 \/ d = 2 \/ d = 3 \/ d = 4 \/ d = 5 \/ d = 6
               \/ d = 7 \/ d = 8 \/ d = 9) by lia.
  repeat (destruct Hd as [-> | Hd]; [by vm_compute|]). subst. by vm_compute.
Qed.

Lemma read_digits_print fuel : forall z tail a seen,
  0 < z < 10 ^ Z.of_nat fuel ->
  exists m, GoStd.read_digits (GoStd.print_digits fuel z tail) a seen
            = GoStd.read_digits tail (a * m + z) true.
Proof.
  induction fuel as [|fuel IH]; intros z tail a seen Hz; [simpl in Hz; lia|].
  assert (Hd : 0 <= z mod 10 < 10) by (apply Z.mod_pos_bound; lia).
  destruct (digit_char_spec _ Hd) as [Hdig Hval].
  assert (Hz' : z = 10 * (z / 10) + z mod 10) by (apply Z.div_mod; lia).
  cbn [GoStd.print_digits]. destruct (z / 10 =? 0)%Z eqn:Hq.
  - apply Z.eqb_eq in Hq. exists 10. cbn [GoStd.read_digits].
    rewrite Hdig, Hval. f_equal. lia.
  - apply Z.eqb_neq in Hq.
    assert (Hq' : 0 < z / 10 < 10 ^ Z.of_nat fuel).
    { split; [pose proof (Z.div_pos z 10); lia|].
      apply Z.div_lt_upper_bound; [lia|].
      rewrite Nat2Z.inj_succ, Z.pow_succ_r in Hz by lia. lia. }
    destruct (IH (z / 10) (String (GoStd.digit_char (z mod 10)) tail) a seen Hq')
      as [m Hm].
    exists (10 * m). rewrite Hm. cbn [GoStd.read_digits].
    rewrite Hdig, Hval. f_equal. lia.
Qed.

Lemma print_digits_app fuel : forall z tail rest,
  GoStd.print_digits fuel z tail +:+ rest
  = GoStd.print_digits fuel z (tail +:+ rest).
Proof.
  induction fuel as [|fuel IH]; intros z tail rest; [done|].
  cbn [GoStd.print_digits]. destruct (z / 10 =? 0)%Z; [done|].
  by rewrite IH.
Qed.

Lemma print_digits_head fuel : forall z d tail,
  GoStd.is_digit d = true ->
  exists c r, GoStd.print_digits fuel z (String d tail) = String c r /\
              GoStd.is_digit c = true.
Proof.
  induction fuel as [|fuel IH]; intros z d tail Hd; [by eauto|].
  assert (Hm : 0 <= z mod 10 < 10) by (apply Z.mod_pos_bound; lia).
  destruct (digit_char_spec _ Hm) as [Hdig _].
  cbn [GoStd.print_digits]. destruct (z / 10 =? 0)%Z; [by eauto|].
  by apply IH.
Qed.

Lemma print_digits_S_head fuel z tail :
  exists c r, GoStd.print_digits (S fuel) z tail = String c r /\
              GoStd.is_digit c = true.
Proof.
  assert (Hm : 0 <= z mod 10 < 10) by (apply Z.mod_pos_bound; lia).
  destruct (digit_char_spec _ Hm) as [Hdig _].
  cbn [GoStd.print_digits]. destruct (z / 10 =? 0)%Z; [by eauto|].
  by apply print_digits_head.
Qed.

Lemma read_value_digit c r :
  GoStd.is_digit c = true ->
  GoStd.read_value (String c r) =
  match GoStd.read_digits (String c r) 0 false with
  | Some (z, rest) => Some (GoStd.JInt z, rest)
  | None => None
  end.
Proof.
  intros H.
  destruct c as [[] [] [] [] [] [] [] []];
    try (vm_compute in H; discriminate H); reflexivity.
Qed.

Lemma read_digits_stop t rest z :
  GoStd.is_digit t = false ->
  GoStd.read_digits (String t rest) z true = Some (z, String t rest).
Proof. intros H. simpl. by rewrite H. Qed.

Lemma read_value_int z t rest :
  - 10 ^ 20 < z < 10 ^ 20 ->
  GoStd.is_digit t = false ->
  GoStd.read_value (GoStd.print_int z +:+ String t rest)
  = Some (GoStd.JInt z, String t rest).
Proof.
  intros Hz Ht. unfold GoStd.print_int.
  destruct (z <? 0)%Z eqn:Hneg.
  - apply Z.ltb_lt in Hneg.
    change (String "-" ?x +:+ ?y) with (String "-" (x +:+ y)).
    rewrite print_digits_app.
    change (GoStd.read_value (String "-" ?x))
      with (match GoStd.read_digits x 0 false with
            | Some (z, rest) => Some (GoStd.JInt (- z), rest)
            | None => None
            end).
    destruct (read_digits_print 20 (- z) ("" +:+ String t rest) 0 false)
      as [m ->]; [simpl Z.of_nat; lia|].
    change ("" +:+ String t rest) with (String t rest).
    rewrite read_digits_stop by done.
    by replace (- (0 * m + - z)) with z by lia.
  - apply Z.ltb_ge in Hneg. rewrite print_digits_app.
    change ("" +:+ String t rest) with (String t rest).
    destruct (Z.eq_dec z 0) as [-> | Hnz].
    + change (GoStd.print_digits 20 0 (String t rest))
        with (String "0" (String t rest)).
      rewrite read_value_digit by done. simpl. by rewrite Ht.
    + destruct (print_digits_S_head 19 z (String t rest))
        as (c & r & Hcr & Hc).
      rewrite Hcr, read_value_digit by done. rewrite <- Hcr.
      destruct (read_digits_print 20 z (String t rest) 0 false) as [m ->];
        [simpl Z.of_nat; lia|].
      rewrite read_digits_stop by done.
      by replace (0 * m + z) with z by lia.
Qed.

Lemma print_string_app k rest :
  GoStd.print_string k +:+ rest
  = String GoStd.quote (GoStd.escape k +:+ String GoStd.quote rest).
Proof. unfold GoStd.print_string. by rewrite append_assoc. Qed.

(** One member followed by a comma, and the last member. *)
Lemma read_members_cons fuel k vtxt v rest :
  GoStd.read_value (vtxt +:+ "," +:+ rest) = Some (v, "," +:+ rest) ->
  GoStd.read_members (S fuel)
    (GoStd.print_string k +:+ ":" +:+ vtxt +:+ "," +:+ rest)
  = match GoStd.read_members fuel rest with
    | Some ms => Some ((k, v) :: ms)
    | None => None
    end.
Proof.
  intros Hv. rewrite print_string_app. cbn [GoStd.read_members].
  change (Ascii.eqb GoStd.quote GoStd.quote) with true. cbv iota.
  rewrite read_string_body_escape.
  change (":" +:+ ?x) with (String ":" x).
  change (Ascii.eqb ":" ":") with true. cbv iota.
  rewrite Hv. reflexivity.
Qed.

Lemma read_members_last fuel k vtxt v :
  GoStd.read_value (vtxt +:+ "}") = Some (v, "}") ->
  GoStd.read_members (S fuel) (GoStd.print_string k +:+ ":" +:+ vtxt +:+ "}")
  = Some [(k, v)].
Proof.
  intros Hv. rewrite print_string_app. cbn [GoStd.read_members].
  change (Ascii.eqb GoStd.quote GoStd.quote) with true. cbv iota.
  rewrite read_string_body_escape.
  change (":" +:+ ?x) with (String ":" x).
  change (Ascii.eqb ":" ":") with true. cbv iota.
  rewrite Hv. reflexivity.
Qed.

Lemma read_object_open r k rest :
  r = GoStd.print_string k +:+ rest ->
  GoStd.read_object (String "{" r)
  = GoStd.read_members (S (String.length r)) r.
Proof. intros ->. unfold GoStd.read_object. by rewrite print_string_app. Qed.

Lemma length_print_string k : (2 <= String.length (GoStd.print_string k))%nat.
Proof.
  unfold GoStd.print_string. rewrite length_append. simpl. lia.
Qed.

(** The reference codec reads back every exported field it wrote, for
    every client whose expiry has at most twenty digits (every [int64]
    has). *)
Lemma unmarshal_marshal n :
  - 10 ^ 20 < TokenExpiresAt n < 10 ^ 20 ->
  exists b, GoStd.marshalNotify n = inr b /\
    GoStd.unmarshalNotify b =
    inr {| corpID := ""; agentID := 0; appSecret := "";
           TokenPersist := TokenPersist n; Token := Token n;
           TokenExpiresAt := TokenExpiresAt n;
           CacheFilePath := CacheFilePath n |}.
Proof.
  intros Hx. eexists. split; [reflexivity|].
  unfold GoStd.unmarshalNotify.
  change ("{" +:+ ?x) with (String "{" x).
  rewrite (read_object_open _ "TokenPersist" _ eq_refl).
  set (fuel := String.length _).
  assert (Hfuel : exists f, S fuel = S (S (S (S f)))).
  { subst fuel. rewrite !length_append.
    pose proof (length_print_string "TokenPersist").
    pose proof (length_print_string "Token").
    match goal with |- exists f, S ?a = _ => exists (a - 3)%nat end.
    simpl String.length. lia. }
  destruct Hfuel as [f ->]. clear fuel.
  erewrite read_members_cons by apply read_value_bool.
  erewrite read_members_cons by apply read_value_string.
  erewrite read_members_cons
    by (by apply (read_value_int _ ","%char)).
  erewrite read_members_last by apply read_value_string.
  reflexivity.
Qed.

End Codec.

Lemma GoStd_codec_roundtrip now tok snd fault n :
  int64_range (TokenExpiresAt n) ->
  codec_roundtrip (GoStd.mkEnv now tok snd fault) n.
Proof.
  intros H.
  destruct (unmarshal_marshal n) as (b & Hb & Hu);
    [unfold int64_range in H; lia|].
  unfold codec_roundtrip, GoStd.mkEnv. cbn [json_Marshal json_Unmarshal].
  by rewrite Hb, Hu.
Qed.

(** * Further properties of the client *)

(** ** Carrying an invariant through the methods *)

Lemma moves_ret R {A} (a : A) : (forall s, R s s) -> moves R (ret a).
Proof. intros Hr n w. apply Hr. Qed.

Lemma moves_bind R {A B} (m : M A) (k : A -> M B) :
  (forall s1 s2 s3, R s1 s2 -> R s2 s3 -> R s1 s3) ->
  moves R m -> (forall a, moves R (k a)) -> moves R (bind m k).
Proof.
  intros Ht Hm Hk n w. unfold bind. specialize (Hm n w).
  destruct (m n w) as [[a n1] w1]. simpl in *.
  eapply Ht; [exact Hm|]. apply Hk.
Qed.

Section StepInvariant.

Variable env : Env.
Variable R : state -> state -> Prop.
Hypothesis HR : step_invariant env R.

Lemma moves_get_client : moves R get_client.
Proof. intros n w. apply (inv_refl _ _ HR). Qed.

Lemma moves_GetToken : moves R (GetToken env).
Proof.
  intros n w. rewrite GetToken_unfold.
  assert (H1 : R (n, w) (n, (tokenValid env n w).2)).
  { rewrite tokenValid_world. destruct (String.eqb _ _).
    - apply (inv_refl _ _ HR).
    - apply (inv_clock _ _ HR n w). }
  destruct (tokenValid env n w).1.1; [exact H1|].
  set (w1 := (tokenValid env n w).2) in *.
  pose proof (inv_gettoken _ _ HR (corpID n) (appSecret n) n w1) as H2.
  unfold http_Get_gettoken in *. simpl in *.
  set (w2 := {| net := _; disk := disk w1 |}) in *.
  assert (H12 : R (n, w) (n, w2)) by (eapply (inv_trans _ _ HR); eauto).
  destruct (token_reply env _) as [e|e pt|tr]; simpl; try exact H12.
  destruct (gt_ErrorCode tr =? 0)%Z; simpl; [|exact H12].
  set (n' := set_TokenExpiresAt _ _).
  eapply (inv_trans _ _ HR); [exact H12|].
  eapply (inv_trans _ _ HR); [apply (inv_clock _ _ HR n w2)|].
  eapply (inv_trans _ _ HR); [apply (inv_put _ _ HR)|].
  pose proof (inv_save _ _ HR n' (tick w2)) as H5.
  by rewrite (proj1 (saveTokenCache_frame env n' (tick w2))) in H5.
Qed.

Lemma moves_sendMessage body : moves R (sendMessage env body).
Proof.
  unfold sendMessage.
  apply moves_bind; [apply (inv_trans _ _ HR)|apply moves_get_client|].
  intros n. apply moves_bind;
    [apply (inv_trans _ _ HR)|apply (inv_post _ _ HR)|].
  intros [e|e pt|r]; apply moves_ret, (inv_refl _ _ HR).
Qed.

Lemma moves_sendInternal body : moves R (sendInternal env body).
Proof.
  pose proof (inv_trans _ _ HR) as Ht. pose proof (inv_refl _ _ HR) as Hr.
  unfold sendInternal.
  apply moves_bind; [done|apply moves_GetToken|].
  intros [[token x] [e|]]; [by apply moves_ret|].
  apply moves_bind; [done|apply (inv_print _ _ HR)|]. intros _.
  apply moves_bind; [done|apply moves_sendMessage|].
  intros [result err]. destruct (_ && _); [|by apply moves_ret].
  apply moves_bind; [done|apply moves_GetToken|].
  intros [[token' x'] err'].
  apply moves_bind; [done|apply (inv_print _ _ HR)|]. intros _.
  destruct err'; [by apply moves_ret|].
  apply moves_bind; [done|apply moves_sendMessage|].
  intros [result' err'']. by apply moves_ret.
Qed.

Lemma moves_Send receiver message options :
  moves R (Send env receiver message options).
Proof.
  pose proof (inv_trans _ _ HR) as Ht. pose proof (inv_refl _ _ HR) as Hr.
  unfold Send. destruct message as [|k|ty]; [by apply moves_ret| |].
  all: destruct (_ && _); [by apply moves_ret|].
  all: apply moves_bind; [done|apply moves_get_client|]; intros n; simpl.
  - apply moves_sendInternal.
  - by apply moves_ret.
Qed.

End StepInvariant.

(** ** What a save does to the disk *)

(** The calls of a save: they extend the log, they are the whole effect
    on the file system, none of them reads, and none of them writes to a
    path other than the cache path and its temporary file. *)
Lemma saveTokenCache_log env n w :
  exists cs,
    syslog (disk (saveTokenCache env n w).2) = (syslog (disk w) ++ cs)%list /\
    fs (disk (saveTokenCache env n w).2) = replay cs (fs (disk w)) /\
    forallb (fun c => negb (is_read c)) cs = true /\
    (TokenPersist n = false -> cs = []) /\
    forall p, p <> CacheFilePath n -> p <> CacheFilePath n +:+ ".tmp" ->
      forallb (fun c => negb (writes_to c p)) cs = true.
Proof.
  unfold saveTokenCache. run.
  destruct (TokenPersist n); simpl.
  2:{ exists []. by rewrite app_nil_r. }
  destruct (json_Marshal env n) as [e|b]; simpl.
  { exists []. by rewrite app_nil_r. }
  destruct (String.eqb _ "."); simpl; unfold fault_now; simpl.
  all: case_faults env.
  all: rewrite <- ?app_assoc; simpl.
  all: eexists; (split; [reflexivity|]); (split; [reflexivity|]).
  all: (split; [reflexivity|]); (split; [done|]).
  all: intros p Hp Ht; simpl.
  all: assert (E1 : String.eqb (CacheFilePath n +:+ ".tmp") p = false)
         by (apply String.eqb_neq; congruence).
  all: assert (E2 : String.eqb (CacheFilePath n) p = false)
         by (apply String.eqb_neq; congruence).
  all: by rewrite ?E1, ?E2.
Qed.

(** ** Fields only the setters write *)

Lemma same_config_refl n : same_config n n.
Proof. by unfold same_config. Qed.

Lemma config_invariant env :
  step_invariant env (fun s s' => same_config s.1 s'.1).
Proof.
  split; unfold moves; try (intros; apply same_config_refl).
  - intros [n1 w1] [n2 w2] [n3 w3]. unfold same_config. simpl.
    intros (? & ? & ? & ? & ?) (? & ? & ? & ? & ?).
    repeat split; congruence.
  - intros t x n w. by unfold same_config.
  - intros n w. change (same_config n (saveTokenCache env n w).1.2).
    rewrite (proj1 (saveTokenCache_frame env n w)). apply same_config_refl.
Qed.

(** X1.  [GetToken] and [Send] write no field of the client other than
    [Token] and [TokenExpiresAt]: the credentials, the persistence flag
    and the cache path after the call are those before it. *)
Theorem GetToken_Send_keep_config env receiver message options n w :
  same_config n (GetToken env n w).1.2 /\
  same_config n (Send env receiver message options n w).1.2.
Proof.
  split.
  - apply (moves_GetToken env _ (config_invariant env) n w).
  - apply (moves_Send env _ (config_invariant env) receiver message options
             n w).
Qed.

(** ** Persistence switched off *)

Lemma nodisk_invariant env :
  step_invariant env
    (fun s s' => TokenPersist s.1 = false ->
                 TokenPersist s'.1 = false /\ disk s'.2 = disk s.2).
Proof.
  split; unfold moves; try done.
  - intros [n1 w1] [n2 w2] [n3 w3]. simpl. intros H12 H23 H.
    destruct (H12 H) as [H2 D2]. destruct (H23 H2) as [H3 D3].
    split; congruence.
  - intros n w H. cbn [fst snd] in *.
    rewrite (proj1 (saveTokenCache_frame env n w)). split; [done|].
    unfold saveTokenCache. run. by rewrite H.
Qed.

(** X2.  With persistence off ([TokenPersist] false, as [New] leaves it)
    [GetToken] and [Send] make no system call and leave the file system
    as it is. *)
Theorem no_persistence_no_disk env receiver message options n w :
  TokenPersist n = false ->
  disk (GetToken env n w).2 = disk w /\
  disk (Send env receiver message options n w).2 = disk w.
Proof.
  intros H. split.
  - by apply (moves_GetToken env _ (nodisk_invariant env) n w).
  - by apply (moves_Send env _ (nodisk_invariant env) receiver message
                options n w).
Qed.

(** ** The cache file is never read back *)

Lemma noread_invariant env :
  step_invariant env
    (fun s s' => exists cs,
       syslog (disk s'.2) = (syslog (disk s.2) ++ cs)%list /\
       forallb (fun c => negb (is_read c)) cs = true).
Proof.
  split; unfold moves;
    try (intros; exists []; by rewrite app_nil_r).
  - intros [n1 w1] [n2 w2] [n3 w3]. simpl.
    intros (c1 & H1 & F1) (c2 & H2 & F2). exists (c1 ++ c2)%list.
    rewrite H2, H1, app_assoc, forallb_app, F1, F2. done.
  - intros n w. cbn [fst snd].
    destruct (saveTokenCache_log env n w) as (cs & Hl & _ & Hr & _).
    by exists cs.
Qed.

Lemma noread_new_calls w w' :
  (exists cs, syslog (disk w') = (syslog (disk w) ++ cs)%list /\
              forallb (fun c => negb (is_read c)) cs = true) ->
  forallb (fun c => negb (is_read c)) (new_calls w w') = true.
Proof.
  intros (cs & H & F). unfold new_calls. by rewrite H, drop_app_length.
Qed.

(** X3.  No call of [New], [GetToken] or [Send] reads a file: the only
    reader of the cache is [loadTokenCache], which [New] runs with
    persistence still off, so a cache written by an earlier run is never
    read back through these methods. *)
Theorem cache_never_read env corp agent secret receiver message options n w :
  new_calls w (New env corp agent secret w).2 = [] /\
  Token (New env corp agent secret w).1 = EmptyString /\
  forallb (fun c => negb (is_read c)) (new_calls w (GetToken env n w).2)
    = true /\
  forallb (fun c => negb (is_read c))
    (new_calls w (Send env receiver message options n w).2) = true.
Proof.
  split; [|split; [reflexivity|split]].
  - unfold new_calls. simpl. apply drop_all.
  - apply noread_new_calls.
    apply (moves_GetToken env _ (noread_invariant env) n w).
  - apply noread_new_calls.
    apply (moves_Send env _ (noread_invariant env) receiver message options
             n w).
Qed.

(** ** Token requests *)

Lemma GetToken_token_gets env n w :
  token_gets (net (GetToken env n w).2) =
  (token_gets (net w) ++
   if negb (String.eqb (Token n) "")
      && (time_at env (ticks (net w)) <? TokenExpiresAt n)%Z
   then [] else [(corpID n, appSecret n)])%list.
Proof.
  rewrite GetToken_unfold, tokenValid_value, tokenValid_world.
  assert (Hrefresh : forall w1, token_gets (net w1) = token_gets (net w) ->
    token_gets (net
         (let '(res, _, w2) :=
            http_Get_gettoken env (corpID n) (appSecret n) n w1 in
          match res with
          | HttpFail e =>
              ("", 0, Some ("token get request error: " +:+ e), n, w2)
          | HttpBadBody e _ =>
              ("", 0, Some ("token result decode error: " +:+ e), n, w2)
          | HttpOk tokenRes =>
              if (gt_ErrorCode tokenRes =? 0)%Z then
                let n' := set_TokenExpiresAt
                            (add64 (time_at env (ticks (net w2)))
                                   (gt_ExpiresIn tokenRes))
                            (set_Token (gt_Token tokenRes) n) in
                (gt_Token tokenRes, TokenExpiresAt n', None, n',
                 (saveTokenCache env n' (tick w2)).2)
              else
                ("", 0, Some ("token get error: " +:+ gt_ErrorMsg tokenRes),
                 n, w2)
          end).2)
    = (token_gets (net w) ++ [(corpID n, appSecret n)])%list).
  { intros w1 Hg. run.
    destruct (token_reply env _) as [e|e pt|tr]; simpl; rewrite ?Hg;
      try done.
    destruct (gt_ErrorCode tr =? 0)%Z; simpl; [|done].
    match goal with
    | |- context [saveTokenCache env ?a ?b] =>
        rewrite (proj2 (saveTokenCache_frame env a b))
    end.
    done. }
  destruct (String.eqb (Token n) ""); cbn [negb andb];
    [by apply Hrefresh|].
  destruct (_ <? _)%Z; cbn [negb andb];
    [simpl; by rewrite app_nil_r|by apply Hrefresh].
Qed.

(** X4.  [GetToken] sends a request to the credential-exchange endpoint
    exactly when the token in memory is empty or the clock is at or past
    [TokenExpiresAt]; it then sends one request, with the corp id and
    secret of the client, and never a second one. *)
Theorem GetToken_requests env n w :
  new_token_gets w (GetToken env n w).2 =
  if negb (String.eqb (Token n) "")
     && (time_at env (ticks (net w)) <? TokenExpiresAt n)%Z
  then [] else [(corpID n, appSecret n)].
Proof.
  unfold new_token_gets. by rewrite GetToken_token_gets, drop_app_length.
Qed.

(** After a call that returned a nil error the client holds the pair
    that was returned. *)
Lemma GetToken_success_state env n w t x :
  (GetToken env n w).1.1 = (t, x, None) ->
  Token (GetToken env n w).1.2 = t /\
  TokenExpiresAt (GetToken env n w).1.2 = x.
Proof.
  rewrite GetToken_unfold.
  destruct (tokenValid env n w).1.1; simpl; [by intros [= <- <-]|].
  destruct (token_reply env _) as [e|e pt|tr]; simpl; try done.
  destruct (gt_ErrorCode tr =? 0)%Z; simpl; [|done].
  by intros [= <- <-].
Qed.

(** X5.  A call of [GetToken] that follows a successful one, with a
    non-empty token and the clock still before the returned expiry,
    returns the same token and expiry from memory: it sends no request,
    does not touch the disk and leaves the client as it is. *)
Theorem GetToken_twice env n w t x :
  (GetToken env n w).1.1 = (t, x, None) ->
  t <> "" ->
  time_at env (ticks (net (GetToken env n w).2)) < x ->
  let first := GetToken env n w in
  let second := GetToken env first.1.2 first.2 in
  second.1.1 = (t, x, None) /\
  second.1.2 = first.1.2 /\
  new_token_gets first.2 second.2 = [] /\
  disk second.2 = disk first.2.
Proof.
  intros Hok Ht Hnow first second. subst second first.
  destruct (GetToken_success_state env n w t x Hok) as [Htok Hexp].
  rewrite GetToken_fast_path by (rewrite ?Htok, ?Hexp; done).
  rewrite Htok, Hexp. unfold new_token_gets. simpl.
  by rewrite drop_all.
Qed.

(** ** What the cache load touches *)

(** X6.  [loadTokenCache] writes at most [Token] and [TokenExpiresAt]:
    the credentials, the persistence flag and the cache path stay as
    they are whatever the cache file holds; the file system and the
    network are not touched; and when it returns an error the client is
    exactly as before. *)
Theorem loadTokenCache_touches_only_token env n w :
  let out := loadTokenCache env n w in
  same_config n out.1.2 /\
  fs (disk out.2) = fs (disk w) /\
  token_gets (net out.2) = token_gets (net w) /\
  posts (net out.2) = posts (net w) /\
  match out.1.1 with
  | Some _ => out.1.2 = n
  | None => True
  end.
Proof.
  unfold loadTokenCache, same_config. run.
  destruct (TokenPersist n) eqn:Hp; simpl; [|by rewrite ?Hp].
  destruct (fault_now env w); simpl; [by rewrite ?Hp|].
  destruct (files (fs (disk w)) !! CacheFilePath n) as [f|]; simpl;
    [|by rewrite ?Hp].
  destruct (json_Unmarshal env (data f)) as [e|cache]; simpl;
    [by rewrite ?Hp|].
  destruct (_ >? _)%Z; simpl; by rewrite ?Hp.
Qed.

(** ** Files the client writes *)

Lemma files_invariant env :
  step_invariant env
    (fun s s' =>
       same_config s.1 s'.1 /\
       forall p, p <> CacheFilePath s.1 ->
                 p <> CacheFilePath s.1 +:+ ".tmp" ->
                 files (fs (disk s'.2)) !! p = files (fs (disk s.2)) !! p).
Proof.
  split; unfold moves; try (intros; split; [apply same_config_refl|done]).
  - intros [n1 w1] [n2 w2] [n3 w3]. cbn [fst snd].
    intros [C12 F12] [C23 F23].
    assert (Hpath : CacheFilePath n2 = CacheFilePath n1) by apply C12.
    split.
    + destruct (config_invariant env) as [_ Ht _ _ _ _ _ _].
      apply (Ht (n1, w1) (n2, w2) (n3, w3)); done.
    + intros p Hp Ht. rewrite F23, F12 by (rewrite ?Hpath; done). done.
  - intros t x n w. by unfold same_config.
  - intros n w. cbn [fst snd].
    rewrite (proj1 (saveTokenCache_frame env n w)).
    split; [apply same_config_refl|]. intros p Hp Ht.
    destruct (saveTokenCache_log env n w) as (cs & _ & -> & _ & _ & Hw).
    apply replay_other. by apply Hw.
Qed.

(** X7.  The only paths [saveTokenCache], [GetToken] and [Send] ever
    write are the cache path and the cache path followed by [.tmp]: every
    other file is after the call what it was before. *)
Theorem only_cache_files_written env receiver message options n w p :
  p <> CacheFilePath n ->
  p <> CacheFilePath n +:+ ".tmp" ->
  files (fs (disk (saveTokenCache env n w).2)) !! p
    = files (fs (disk w)) !! p /\
  files (fs (disk (GetToken env n w).2)) !! p = files (fs (disk w)) !! p /\
  files (fs (disk (Send env receiver message options n w).2)) !! p
    = files (fs (disk w)) !! p.
Proof.
  intros Hp Ht. pose proof (files_invariant env) as Hinv. split; [|split].
  - by apply (inv_save _ _ Hinv n w).
  - by apply (moves_GetToken env _ Hinv n w).
  - by apply (moves_Send env _ Hinv receiver message options n w).
Qed.

(** X8.  A save that returns nil leaves no temporary file behind: the
    file written under the cache path followed by [.tmp] has become the
    cache file. *)
Theorem saveTokenCache_success_no_tmp env n w :
  (saveTokenCache env n w).1.1 = None ->
  files (fs (disk (saveTokenCache env n w).2)) !! (CacheFilePath n +:+ ".tmp")
  = None.
Proof.
  pose proof (tmp_path_ne (CacheFilePath n)) as Hne.
  unfold saveTokenCache. run.
  destruct (TokenPersist n); simpl; [|done].
  destruct (json_Marshal env n) as [e|b]; simpl; [done|].
  destruct (String.eqb _ "."); simpl; unfold fault_now; simpl.
  all: case_faults env; try done.
  all: intros _.
  all: rewrite !lookup_alter_eq, lookup_insert_eq; simpl.
  all: by rewrite lookup_insert_ne, lookup_delete_eq.
Qed.

(** X9.  When the final rename fails the save returns that error and the
    temporary file stays on the disk, holding the complete marshalled
    client: this failure path does not remove it. *)
Theorem saveTokenCache_rename_failure env n w e :
  (saveTokenCache env n w).1.1 = Some (Errorf_w "rename temp file failed: " e) ->
  exists b, json_Marshal env n = inr b /\
    files (fs (disk (saveTokenCache env n w).2))
      !! (CacheFilePath n +:+ ".tmp")
    = Some {| data := b; synced := true |}.
Proof.
  unfold saveTokenCache. run.
  destruct (TokenPersist n); simpl; [|done].
  destruct (json_Marshal env n) as [e'|b]; simpl;
    [by (cbv [Errorf_w String.append]; intros [=])|].
  destruct (String.eqb _ "."); simpl; unfold fault_now; simpl.
  all: case_faults env;
    try (cbv [Errorf_w String.append]; intros [=]; fail).
  all: intros _; exists b; split; [done|].
  all: by rewrite !lookup_alter_eq, lookup_insert_eq.
Qed.

(** ** A refreshed token survives a restart *)

Lemma saveTokenCache_no_fault env n w b :
  (forall i, fs_fault env i = None) ->
  TokenPersist n = true ->
  json_Marshal env n = inr b ->
  (saveTokenCache env n w).1.1 = None.
Proof.
  intros Hf Hp Hb. unfold saveTokenCache. run. rewrite Hp, Hb. simpl.
  destruct (String.eqb _ "."); simpl; unfold fault_now; simpl.
  all: by rewrite !Hf.
Qed.


(** ** Validation and the envelope *)

Lemma receiver_unset receiver :
  ~ receiver_set receiver ->
  Nat.eqb (String.length (ToUser receiver)) 0
  && Nat.eqb (String.length (ToParty receiver)) 0
  && Nat.eqb (String.length (ToTag receiver)) 0 = true.
Proof.
  unfold receiver_set. destruct receiver as [[|] [|] [|]]; simpl; try done.
  all: intros H; exfalso; apply H; auto.
Qed.

Lemma receiver_is_set receiver :
  receiver_set receiver ->
  Nat.eqb (String.length (ToUser receiver)) 0
  && Nat.eqb (String.length (ToParty receiver)) 0
  && Nat.eqb (String.length (ToTag receiver)) 0 = false.
Proof.
  unfold receiver_set. destruct receiver as [[|] [|] [|]]; simpl; try done.
  by intros [H|[H|H]].
Qed.

(** X11.  [Send] refuses a nil message, and then a receiver with none of
    its three fields set, before anything else happens: it returns the
    zero result with the error of the first failed check (the nil check
    comes first), and the client, the clock, the network and the disk
    are untouched. *)
Theorem Send_rejects_early env receiver message options n w :
  message = INil \/ ~ receiver_set receiver ->
  Send env receiver message options n w =
  (zeroMessageResult,
   Some (match message with
         | INil => "message can not be nil"
         | _ => "message receiver not set, set at least one"
         end), n, w).
Proof.
  intros [-> | H]; [done|].
  unfold Send. rewrite (receiver_unset _ H). by destruct message.
Qed.

Lemma Send_recognized env receiver k options n w :
  receiver_set receiver ->
  Send env receiver (IKey k) options n w
  = sendInternal env (Send_body receiver k options n) n w.
Proof. intros H. unfold Send. by rewrite (receiver_is_set _ H). Qed.

Lemma Send_posted_body env receiver k options n w token body :
  (token, body) ∈ new_posts w (Send env receiver (IKey k) options n w).2 ->
  body = Send_body receiver k options n.
Proof.
  intros Hin. unfold Send in Hin.
  destruct (_ && _).
  - unfold new_posts, ret in Hin. simpl in Hin. rewrite drop_all in Hin.
    by apply not_elem_of_nil in Hin.
  - unfold bind at 1, get_client in Hin. simpl in Hin.
    by apply (posts_only_new _ _ _ _ _ (posts_only_sendInternal env _)) in Hin.
Qed.

(** The keys [setOptions] may write. *)
Lemma setOptions_other (body : msgBody) options (f : string) :
  f <> "safe" -> f <> "enable_id_trans" -> f <> "enable_duplicate_check" ->
  f <> "duplicate_check_interval" ->
  setOptions body options !! f = body !! f.
Proof.
  intros H1 H2 H3 H4. destruct options as [o|]; simpl; [|done].
  destruct (Safe o), (EnableIDTrans o), (EnableDuplicateCheck o); simpl;
    try destruct (negb _); simpl;
    by rewrite ?lookup_insert_ne.
Qed.

Lemma setOptions_flags (body : msgBody) options :
  body !! "safe" = None -> body !! "enable_id_trans" = None ->
  body !! "enable_duplicate_check" = None ->
  let flag (b : MessageOptions -> bool) :=
    match options with
    | Some o => if b o then Some (VInt 1) else None
    | None => None
    end in
  setOptions body options !! "safe" = flag Safe /\
  setOptions body options !! "enable_id_trans" = flag EnableIDTrans /\
  setOptions body options !! "enable_duplicate_check"
    = flag EnableDuplicateCheck.
Proof.
  intros H1 H2 H3 flag. subst flag. cbv beta.
  destruct options as [o|]; simpl; [|done].
  destruct (Safe o), (EnableIDTrans o), (EnableDuplicateCheck o); simpl;
    try destruct (negb _); simpl; repeat split; by simplify_map_eq.
Qed.

(** The discriminator of a message is none of the envelope's own keys. *)
Lemma key_not_field k :
  key k <> "touser" /\ key k <> "toparty" /\ key k <> "totag" /\
  key k <> "agentid" /\ key k <> "msgtype" /\ key k <> "safe" /\
  key k <> "enable_id_trans" /\ key k <> "enable_duplicate_check" /\
  key k <> "duplicate_check_interval".
Proof. destruct k; simpl; repeat split; discriminate. Qed.

(** X12.  Every body [Send] posts for a message of the package holds
    the three receiver fields as given (empty ones included), the agent
    id of the client, the discriminator of the message under [msgtype]
    and the message itself under its discriminator. *)
Theorem Send_envelope env receiver k options n w token body :
  (token, body) ∈ new_posts w (Send env receiver (IKey k) options n w).2 ->
  body !! "touser" = Some (VString (ToUser receiver)) /\
  body !! "toparty" = Some (VString (ToParty receiver)) /\
  body !! "totag" = Some (VString (ToTag receiver)) /\
  body !! "agentid" = Some (VInt (agentID n)) /\
  body !! "msgtype" = Some (VString (key k)) /\
  body !! key k = Some (VMessage k).
Proof.
  intros Hin. apply Send_posted_body in Hin. subst body. unfold Send_body.
  destruct (key_not_field k) as (K1 & K2 & K3 & K4 & K5 & _).
  cbv zeta. repeat split.
  all: rewrite ?lookup_insert_eq; try done.
  all: rewrite (lookup_insert_ne _ (key k)) by done.
  all: rewrite ?lookup_insert_eq; try done.
  all: rewrite (lookup_insert_ne _ "msgtype") by done.
  all: rewrite setOptions_other by done.
  all: by simplify_map_eq.
Qed.

(** X13.  In every body [Send] posts, each of the keys [safe],
    [enable_id_trans] and [enable_duplicate_check] is present, with
    value 1, exactly when options are given with the corresponding flag
    set; the three flags are applied independently of one another. *)
Theorem Send_option_flags env receiver k options n w token body :
  (token, body) ∈ new_posts w (Send env receiver (IKey k) options n w).2 ->
  let flag (b : MessageOptions -> bool) :=
    match options with
    | Some o => if b o then Some (VInt 1) else None
    | None => None
    end in
  body !! "safe" = flag Safe /\
  body !! "enable_id_trans" = flag EnableIDTrans /\
  body !! "enable_duplicate_check" = flag EnableDuplicateCheck.
Proof.
  intros Hin. apply Send_posted_body in Hin. subst body. unfold Send_body.
  destruct (key_not_field k) as (_ & _ & _ & _ & _ & K6 & K7 & K8 & _).
  cbv zeta.
  rewrite !(lookup_insert_ne _ (key k)) by done.
  rewrite !(lookup_insert_ne _ "msgtype") by done.
  by apply setOptions_flags.
Qed.

(** ** The paths through sendInternal *)

Lemma sendInternal_unfold env body n w :
  sendInternal env body n w =
  let '(token, _, err, n1, w1) := GetToken env n w in
  match err with
  | Some e => (zeroMessageResult, Some e, n1, w1)
  | None =>
    let w1p := (fmt_Println token n1 w1).2 in
    let '(result, err1, _, w2) := sendMessage env body n1 w1p in
    if is_nil err1
       && ((ErrorCode result =? 42001)%Z || (ErrorCode result =? 40014)%Z)
    then
      let '(token', _, err', n2, w3) := GetToken env n1 w2 in
      let w3p := (fmt_Println token' n2 w3).2 in
      match err' with
      | None =>
          let '(result', _, _, w4) := sendMessage env body n2 w3p in
          (result', err1, n2, w4)
      | Some _ => (result, err1, n2, w3p)
      end
    else (result, err1, n1, w2)
  end.
Proof.
  unfold sendInternal, fmt_Println. unfold bind at 1.
  destruct (GetToken env n w) as [[[[token x] [e|]] n1] w1]; [done|].
  unfold bind at 1. cbn [fst snd]. unfold bind at 1.
  assert (Hsm : forall m u, (sendMessage env body m u).1.2 = m).
  { intros m u. unfold sendMessage. run. by destruct (send_reply env _). }
  match goal with
  | |- context [sendMessage env body n1 ?u] =>
      pose proof (Hsm n1 u) as H1;
      destruct (sendMessage env body n1 u) as [[[result err1] m1] w2]
  end.
  cbn [fst snd] in H1. subst m1.
  destruct (_ && _); [|done].
  unfold bind at 1.
  destruct (GetToken env n1 w2) as [[[[token' x'] err'] n2] w3].
  unfold bind at 1. cbn [fst snd].
  destruct err'; [done|]. unfold bind at 1.
  match goal with
  | |- context [sendMessage env body n2 ?u] =>
      pose proof (Hsm n2 u) as H2;
      destruct (sendMessage env body n2 u) as [[[result' err''] m2] w4]
  end.
  cbn [fst snd] in H2. by subst m2.
Qed.

Lemma GetToken_failed_client env n w e :
  (GetToken env n w).1.1.2 = Some e -> (GetToken env n w).1.2 = n.
Proof.
  rewrite GetToken_unfold.
  destruct (tokenValid env n w).1.1; simpl; [done|].
  destruct (token_reply env _) as [e'|e' pt|tr]; simpl; try done.
  by destruct (gt_ErrorCode tr =? 0)%Z.
Qed.

Lemma GetToken_stdout env n w :
  stdout (net (GetToken env n w).2) = stdout (net w).
Proof.
  rewrite GetToken_unfold, tokenValid_world.
  assert (Hp : stdout (net (if String.eqb (Token n) "" then w else tick w))
               = stdout (net w)) by (by destruct (String.eqb _ _)).
  destruct (tokenValid env n w).1.1; simpl; [done|]. run.
  destruct (token_reply env _) as [e|e pt|tr]; simpl; try done.
  destruct (gt_ErrorCode tr =? 0)%Z; simpl; [|done].
  match goal with
  | |- context [saveTokenCache env ?a ?b] =>
      pose proof (saveTokenCache_frame env a b) as [_ Hnet]
  end.
  by rewrite Hnet.
Qed.

Lemma sendMessage_eq env body n w :
  sendMessage env body n w =
  (match send_reply env (length (posts (net w))) with
   | HttpFail e =>
       (zeroMessageResult, Some ("send message request error: " +:+ e))
   | HttpBadBody e partial =>
       (partial, Some ("send message result decode error: " +:+ e))
   | HttpOk result => (result, None)
   end, n,
   {| net := {| ticks := ticks (net w); token_gets := token_gets (net w);
                posts := posts (net w) ++ [(Token n, body)];
                stdout := stdout (net w) |};
      disk := disk w |}).
Proof. unfold sendMessage. run. by destruct (send_reply env _). Qed.

(** X14.  A failed token fetch stops [Send] at once: the error of
    [GetToken] is returned as it is with the zero result, nothing is
    posted and the client is left as it was. *)
Theorem Send_token_failure env receiver k options n w e :
  receiver_set receiver ->
  (GetToken env n w).1.1.2 = Some e ->
  let out := Send env receiver (IKey k) options n w in
  out.1.1 = (zeroMessageResult, Some e) /\
  out.1.2 = n /\
  new_posts w out.2 = [].
Proof.
  intros Hr He out. subst out.
  rewrite Send_recognized, sendInternal_unfold by done.
  pose proof (GetToken_failed_client env n w e He) as Hn.
  pose proof (GetToken_posts env n w) as Hp.
  destruct (GetToken env n w) as [[[[token x] err] n1] w1].
  cbn [fst snd] in *. subst err n1.
  unfold new_posts. cbn [fst snd]. by rewrite Hp, drop_all.
Qed.

(** X15.  When the token fetch succeeds and the first post is not
    answered with code 42001 or 40014, [Send] posts exactly once, with
    the token [GetToken] left in the client: a decoded answer is
    returned as it is with a nil error (whatever its error code), and a
    failed request or an undecodable answer is returned as an error
    without a second attempt. *)
Theorem Send_single_attempt env receiver k options n w :
  receiver_set receiver ->
  (GetToken env n w).1.1.2 = None ->
  let out := Send env receiver (IKey k) options n w in
  let posted := [(Token (GetToken env n w).1.2,
                  Send_body receiver k options n)] in
  match send_reply env (length (posts (net w))) with
  | HttpFail e =>
      out.1.1 = (zeroMessageResult,
                 Some ("send message request error: " +:+ e)) /\
      new_posts w out.2 = posted
  | HttpBadBody e partial =>
      out.1.1 = (partial,
                 Some ("send message result decode error: " +:+ e)) /\
      new_posts w out.2 = posted
  | HttpOk result =>
      ErrorCode result <> 42001 -> ErrorCode result <> 40014 ->
      out.1.1 = (result, None) /\ new_posts w out.2 = posted
  end.
Proof.
  intros Hr He out posted. subst out posted.
  rewrite Send_recognized, sendInternal_unfold by done.
  pose proof (GetToken_posts env n w) as Hp.
  destruct (GetToken env n w) as [[[[token x] err] n1] w1].
  cbn [fst snd] in *. subst err.
  rewrite sendMessage_eq. unfold fmt_Println. cbn [fst snd net posts].
  rewrite ?Hp. unfold new_posts.
  destruct (send_reply env _) as [e|e pt|r]; cbn [fst snd is_nil andb].
  - cbn [net posts]. by rewrite ?Hp, drop_app_length.
  - cbn [net posts]. by rewrite ?Hp, drop_app_length.
  - intros H1 H2. apply Z.eqb_neq in H1, H2. rewrite H1, H2.
    cbn [orb andb fst snd net posts]. by rewrite ?Hp, drop_app_length.
Qed.

(** ** How much a Send can send *)

Lemma traffic_ret {A} (a : A) : traffic 0 0 (ret a).
Proof. intros n w. exists [], []. by rewrite !app_nil_r. Qed.

Lemma traffic_weaken p t p' t' {A} (m : M A) :
  (p <= p')%nat -> (t <= t')%nat -> traffic p t m -> traffic p' t' m.
Proof.
  intros Hp Ht Hm n w. destruct (Hm n w) as (lp & lt & H1 & H2 & H3 & H4).
  exists lp, lt. repeat split; try done; lia.
Qed.

Lemma traffic_bind p1 t1 p2 t2 {A B} (m : M A) (k : A -> M B) :
  traffic p1 t1 m -> (forall a, traffic p2 t2 (k a)) ->
  traffic (p1 + p2) (t1 + t2) (bind m k).
Proof.
  intros Hm Hk n w. unfold bind.
  destruct (Hm n w) as (lp1 & lt1 & P1 & T1 & Lp1 & Lt1).
  destruct (m n w) as [[a n1] w1]. cbn [fst snd] in *.
  destruct (Hk a n1 w1) as (lp2 & lt2 & P2 & T2 & Lp2 & Lt2).
  exists (lp1 ++ lp2)%list, (lt1 ++ lt2)%list.
  rewrite P2, T2, P1, T1, !app_assoc, !length_app. repeat split; try done; lia.
Qed.

Lemma traffic_GetToken env : traffic 0 1 (GetToken env).
Proof.
  intros n w. exists [].
  exists (if negb (String.eqb (Token n) "")
             && (time_at env (ticks (net w)) <? TokenExpiresAt n)%Z
          then [] else [(corpID n, appSecret n)]).
  rewrite app_nil_r, GetToken_posts, GetToken_token_gets.
  repeat split; [simpl; lia|]. destruct (_ && _); simpl; lia.
Qed.

Lemma traffic_sendMessage env body : traffic 1 0 (sendMessage env body).
Proof.
  intros n w. rewrite sendMessage_eq. cbn [fst snd net posts token_gets].
  exists [(Token n, body)], []. by rewrite app_nil_r.
Qed.

Lemma traffic_fmt_Println line : traffic 0 0 (fmt_Println line).
Proof. intros n w. exists [], []. by rewrite !app_nil_r. Qed.

Lemma traffic_sendInternal env body : traffic 2 2 (sendInternal env body).
Proof.
  unfold sendInternal.
  apply (traffic_bind 0 1 2 1); [apply traffic_GetToken|].
  intros [[token x] [e|]];
    [apply (traffic_weaken 0 0); [lia|lia|apply traffic_ret]|].
  apply (traffic_bind 0 0 2 1); [apply traffic_fmt_Println|]. intros _.
  apply (traffic_bind 1 0 1 1); [apply traffic_sendMessage|].
  intros [result err]. destruct (_ && _);
    [|apply (traffic_weaken 0 0); [lia|lia|apply traffic_ret]].
  apply (traffic_bind 0 1 1 0); [apply traffic_GetToken|].
  intros [[token' x'] err'].
  apply (traffic_bind 0 0 1 0); [apply traffic_fmt_Println|]. intros _.
  destruct err'; [apply (traffic_weaken 0 0); [lia|lia|apply traffic_ret]|].
  apply (traffic_bind 1 0 0 0); [apply traffic_sendMessage|].
  intros [result' err'']. apply traffic_ret.
Qed.

(** X16.  Whatever the clock, the endpoints and the disk do, one call of
    [Send] posts at most twice and asks for a token at most twice: the
    retry never loops. *)
Theorem Send_traffic_bound env receiver message options n w :
  let out := Send env receiver message options n w in
  (length (new_posts w out.2) <= 2)%nat /\
  (length (new_token_gets w out.2) <= 2)%nat.
Proof.
  assert (H : traffic 2 2 (Send env receiver message options)).
  { unfold Send. destruct message as [|k|ty];
      [apply (traffic_weaken 0 0); [lia|lia|apply traffic_ret]| |].
    all: destruct (_ && _);
      [apply (traffic_weaken 0 0); [lia|lia|apply traffic_ret]|].
    all: apply (traffic_bind 0 0 2 2);
      [intros m u; exists [], []; by rewrite !app_nil_r|]; intros m.
    - apply traffic_sendInternal.
    - apply (traffic_weaken 0 0); [lia|lia|apply traffic_ret]. }
  intros out. subst out. destruct (H n w) as (lp & lt & P & T & Lp & Lt).
  unfold new_posts, new_token_gets. by rewrite P, T, !drop_app_length.
Qed.

Lemma Send_IKey env receiver k options n w :
  Send env receiver (IKey k) options n w =
  if Nat.eqb (String.length (ToUser receiver)) 0
     && Nat.eqb (String.length (ToParty receiver)) 0
     && Nat.eqb (String.length (ToTag receiver)) 0
  then (zeroMessageResult,
        Some "message receiver not set, set at least one", n, w)
  else sendInternal env (Send_body receiver k options n) n w.
Proof. unfold Send. by destruct (_ && _). Qed.

Lemma sendMessage_net env body n w :
  posts (net (sendMessage env body n w).2)
    = (posts (net w) ++ [(Token n, body)])%list /\
  stdout (net (sendMessage env body n w).2) = stdout (net w).
Proof. by rewrite sendMessage_eq. Qed.

Lemma sendInternal_last_post env body n w token b :
  last (new_posts w (sendInternal env body n w).2) = Some (token, b) ->
  token = Token (sendInternal env body n w).1.2.
Proof.
  rewrite sendInternal_unfold.
  pose proof (GetToken_posts env n w) as Hp.
  destruct (GetToken env n w) as [[[[tk x] [e|]] n1] w1]; cbn [fst snd] in *.
  { unfold new_posts. by rewrite Hp, drop_all. }
  set (w1p := (fmt_Println tk n1 w1).2).
  assert (Hp1 : posts (net w1p) = posts (net w)) by done.
  destruct (sendMessage_net env body n1 w1p) as [Hp2 _].
  destruct (sendMessage env body n1 w1p) as [[[result err1] m1] w2].
  cbn [fst snd] in *. rewrite Hp1 in Hp2.
  destruct (_ && _).
  - pose proof (GetToken_posts env n1 w2) as Hp3.
    pose proof (GetToken_failed_client env n1 w2) as Hf.
    destruct (GetToken env n1 w2) as [[[[tk' x'] [e'|]] n2] w3];
      cbn [fst snd] in *.
    + rewrite (Hf e' eq_refl). unfold new_posts, fmt_Println.
      cbn [fst snd net posts]. rewrite Hp3, Hp2, drop_app_length.
      by intros [= <- _].
    + set (w3p := (fmt_Println tk' n2 w3).2).
      assert (Hp4 : posts (net w3p) = posts (net w3)) by done.
      destruct (sendMessage_net env body n2 w3p) as [Hp5 _].
      destruct (sendMessage env body n2 w3p) as [[[result' err''] m2] w4].
      cbn [fst snd] in *. unfold new_posts.
      rewrite Hp5, Hp4, Hp3, Hp2, <- app_assoc, drop_app_length.
      by intros [= <- _].
  - unfold new_posts. cbn [fst snd]. rewrite Hp2, drop_app_length.
    by intros [= <- _].
Qed.

(** X17.  Whenever [Send] has posted, its last post carries the token
    the client holds when [Send] returns. *)
Theorem Send_last_post_token env receiver message options n w token body :
  last (new_posts w (Send env receiver message options n w).2)
    = Some (token, body) ->
  token = Token (Send env receiver message options n w).1.2.
Proof.
  assert (Hnone : last (new_posts w w) = Some (token, body) -> False).
  { unfold new_posts. by rewrite drop_all. }
  destruct message as [|k|ty].
  - by intros ?%Hnone.
  - rewrite Send_IKey. destruct (_ && _); [by intros ?%Hnone|].
    apply sendInternal_last_post.
  - unfold Send. destruct (_ && _); by intros ?%Hnone.
Qed.


(** ** Media upload *)

(** X19.  [Upload] reads the media file before it asks for a token: when
    opening the file, starting the multipart part or copying the file
    fails, it returns the zero result with an error, and the client, the
    clock, the network and the disk are as before; nothing is
    uploaded. *)
Theorem Upload_local_failure uenv media n u e :
  open_media uenv (Media_Path media) u = inl e \/
  formfile_fault uenv (upload_calls u) = Some e \/
  copy_fault uenv (upload_calls u) = Some e ->
  let out := Upload uenv media n u in
  out.1.1.1 = zeroUploadMediaResult /\
  (exists e', out.1.1.2 = Some e') /\
  out.1.2 = n /\
  up_world out.2 = up_world u /\
  uploads out.2 = uploads u.
Proof.
  intros H out. subst out. unfold Upload.
  destruct (open_media uenv (Media_Path media) u) as [e0|content];
    [by eauto 10|].
  destruct (formfile_fault uenv (upload_calls u)) as [e1|]; [by eauto 10|].
  destruct (copy_fault uenv (upload_calls u)) as [e2|]; [by eauto 10|].
  by destruct H as [H|[H|H]].
Qed.

(** The steps of [Upload] before the token fetch all succeed and the
    file holds [content]. *)
Lemma Upload_readable uenv media n u content :
  open_media uenv (Media_Path media) u = inr content ->
  formfile_fault uenv (upload_calls u) = None ->
  copy_fault uenv (upload_calls u) = None ->
  Upload uenv media n u =
  let '(token, _, err, n1, w1) := GetToken (up_env uenv) n (up_world u) in
  match err with
  | Some e =>
      (zeroUploadMediaResult, Some e, n1,
       {| up_world := w1; upload_calls := S (upload_calls u);
          uploads := uploads u |})
  | None =>
      let post := {| up_token := Token n1; up_type := Media_Type media;
                     up_field := "media";
                     up_filename := filepath_Base uenv (Media_Path media);
                     up_content := content |} in
      let u2 := {| up_world := (fmt_Println token n1 w1).2;
                   upload_calls := S (upload_calls u);
                   uploads := uploads u ++ [post] |} in
      match upload_reply uenv (length (uploads u)) with
      | HttpFail e =>
          (zeroUploadMediaResult,
           Some ("upload media file error: " +:+ e), n1, u2)
      | HttpBadBody e partial =>
          (partial, Some ("upload media result decode error: " +:+ e),
           n1, u2)
      | HttpOk r => (r, None, n1, u2)
      end
  end.
Proof.
  intros Ho Hf Hc. unfold Upload. rewrite Ho, Hf, Hc.
  destruct (GetToken (up_env uenv) n (up_world u))
    as [[[[token x] [e|]] n1] w1]; [done|].
  by destruct (upload_reply uenv _).
Qed.

(** X20.  When the token fetch fails, [Upload] returns the error of
    [GetToken] as it is and uploads nothing; the client is left as it
    was. *)
Theorem Upload_token_failure uenv media n u content e :
  open_media uenv (Media_Path media) u = inr content ->
  formfile_fault uenv (upload_calls u) = None ->
  copy_fault uenv (upload_calls u) = None ->
  (GetToken (up_env uenv) n (up_world u)).1.1.2 = Some e ->
  let out := Upload uenv media n u in
  out.1.1 = (zeroUploadMediaResult, Some e) /\
  out.1.2 = n /\
  uploads out.2 = uploads u.
Proof.
  intros Ho Hf Hc He out. subst out.
  rewrite (Upload_readable _ _ _ _ _ Ho Hf Hc).
  pose proof (GetToken_failed_client _ _ _ _ He) as Hn.
  destruct (GetToken (up_env uenv) n (up_world u))
    as [[[[token x] err] n1] w1].
  cbn [fst snd] in *. by subst.
Qed.

(** X21.  When the file can be read and the token fetch succeeds,
    [Upload] posts once: the post carries the token of the client, the
    media type, the form field [media], the base name of the path and
    the bytes of the file.  The decoded answer is returned as it is with
    a nil error whatever its error code (an expired-token code is not
    retried); a failed request and an undecodable answer are returned
    as errors. *)
Theorem Upload_posts_once uenv media n u content :
  open_media uenv (Media_Path media) u = inr content ->
  formfile_fault uenv (upload_calls u) = None ->
  copy_fault uenv (upload_calls u) = None ->
  (GetToken (up_env uenv) n (up_world u)).1.1.2 = None ->
  let out := Upload uenv media n u in
  out.1.2 = (GetToken (up_env uenv) n (up_world u)).1.2 /\
  uploads out.2 =
    (uploads u ++
     [ {| up_token := Token out.1.2; up_type := Media_Type media;
          up_field := "media";
          up_filename := filepath_Base uenv (Media_Path media);
          up_content := content |} ])%list /\
  out.1.1 =
    match upload_reply uenv (length (uploads u)) with
    | HttpFail e =>
        (zeroUploadMediaResult, Some ("upload media file error: " +:+ e))
    | HttpBadBody e partial =>
        (partial, Some ("upload media result decode error: " +:+ e))
    | HttpOk r => (r, None)
    end.
Proof.
  intros Ho Hf Hc He out. subst out.
  rewrite (Upload_readable _ _ _ _ _ Ho Hf Hc).
  destruct (GetToken (up_env uenv) n (up_world u))
    as [[[[token x] err] n1] w1].
  cbn [fst snd] in *. subst err.
  by destruct (upload_reply uenv _).
Qed.

(** X22.  One call of [Upload] uploads at most once and asks for a token
    at most once, whatever the endpoints answer. *)
Theorem Upload_traffic_bound uenv media n u :
  let out := Upload uenv media n u in
  (uploads out.2 = uploads u \/
   exists post, uploads out.2 = (uploads u ++ [post])%list) /\
  (length (new_token_gets (up_world u) (up_world out.2)) <= 1)%nat.
Proof.
  intros out. subst out. unfold Upload.
  assert (H0 : (length (new_token_gets (up_world u) (up_world u)) <= 1)%nat).
  { unfold new_token_gets. rewrite drop_all. simpl. lia. }
  destruct (open_media uenv (Media_Path media) u) as [e0|content];
    [by auto|].
  destruct (formfile_fault uenv (upload_calls u)) as [e1|]; [by auto|].
  destruct (copy_fault uenv (upload_calls u)) as [e2|]; [by auto|].
  destruct (traffic_GetToken (up_env uenv) n (up_world u))
    as (lp & lt & _ & T & _ & Lt).
  destruct (GetToken (up_env uenv) n (up_world u))
    as [[[[token x] [e|]] n1] w1]; cbn [fst snd] in *.
  - split; [by left|]. unfold new_token_gets. cbn [up_world].
    by rewrite T, drop_app_length.
  - assert (Hlen : (length (new_token_gets (up_world u)
                              (fmt_Println token n1 w1).2) <= 1)%nat).
    { unfold new_token_gets, fmt_Println. cbn [snd net token_gets].
      by rewrite T, drop_app_length. }
    destruct (upload_reply uenv _); cbn [fst snd uploads up_world];
      (split; [right; by eexists|done]).
Qed.

(** * Runs on concrete inputs *)

Import Samples.

Lemma GetToken_cached_witness :
  Token client_cached <> "" /\
  time_at env_quiet (ticks (net GoStd.emptyWorld)) < TokenExpiresAt client_cached /\
  (GetToken env_quiet client_cached GoStd.emptyWorld).1.1 = ("tok", 7200, None) /\
  (GetToken env_quiet client_cached GoStd.emptyWorld).1.2 = client_cached.
Proof.
  assert (H1 : Token client_cached <> "") by discriminate.
  assert (H2 : time_at env_quiet (ticks (net GoStd.emptyWorld))
               < TokenExpiresAt client_cached) by (simpl; lia).
  destruct (GetToken_cached env_quiet client_cached GoStd.emptyWorld H1 H2)
    as (Hr & Hn & _).
  repeat split; assumption.
Defined.

Lemma GetToken_error_keeps_client_witness :
  (GetToken env_token_down client_empty GoStd.emptyWorld).1.1.2
  = Some "token get request error: dial tcp: i/o timeout" /\
  (GetToken env_token_down client_empty GoStd.emptyWorld).1.2 = client_empty.
Proof.
  assert (H : (GetToken env_token_down client_empty GoStd.emptyWorld).1.1.2
              = Some "token get request error: dial tcp: i/o timeout")
    by reflexivity.
  split; [exact H|].
  exact (proj1 (GetToken_error_keeps_client _ _ _ _ H)).
Defined.

Lemma GetToken_refresh_witness :
  (tokenValid env_quiet client_empty GoStd.emptyWorld).1.1 = false /\
  (GetToken env_quiet client_empty GoStd.emptyWorld).1.1
  = ("fresh", 7300, None) /\
  Token (GetToken env_quiet client_empty GoStd.emptyWorld).1.2 = "fresh" /\
  TokenExpiresAt (GetToken env_quiet client_empty GoStd.emptyWorld).1.2
  = 7300.
Proof.
  assert (H : (tokenValid env_quiet client_empty GoStd.emptyWorld).1.1 = false)
    by reflexivity.
  split; [exact H|].
  pose proof (GetToken_refresh env_quiet client_empty GoStd.emptyWorld H)
    as (_ & Hr & Ht & Hx & _).
  repeat split; assumption.
Defined.

(** The disk is full: the save inside [GetToken] fails at its first
    system call, and [GetToken] returns the fresh token all the same. *)
Example GetToken_disk_full :
  (GetToken env_disk_full client_empty GoStd.emptyWorld).1.1
  = ("fresh", 7300, None) /\
  (saveTokenCache env_disk_full
     (GetToken env_disk_full client_empty GoStd.emptyWorld).1.2
     GoStd.emptyWorld).1.1
  = Some "create cache directory failed: no space left on device".
Proof. split; reflexivity. Qed.


Lemma Send_duplicate_check_interval_witness :
  ("tok", hello_body)
    ∈ new_posts GoStd.emptyWorld
        (Send env_quiet to_alice hello (Some dedup_900) client_cached
           GoStd.emptyWorld).2 /\
  hello_body !! "duplicate_check_interval" = Some (VInt 900).
Proof.
  assert (H : ("tok", hello_body)
    ∈ new_posts GoStd.emptyWorld
        (Send env_quiet to_alice hello (Some dedup_900) client_cached
           GoStd.emptyWorld).2).
  { vm_compute. constructor. }
  split; [exact H|].
  exact (proj1 (Send_duplicate_check_interval _ _ _ _ _ _ _ _ H)).
Defined.

(** The scenario of the specification: the check is off and an interval
    of 900 is given; the posted body has no interval field. *)
Example Send_interval_without_check :
  map (fun tb => tb.2 !! "duplicate_check_interval")
    (new_posts GoStd.emptyWorld
       (Send env_quiet to_alice hello (Some nodedup_900) client_cached
          GoStd.emptyWorld).2)
  = [None].
Proof. vm_compute. reflexivity. Qed.



(** ** Runs for the further properties *)

Import MoreSamples.

Lemma no_persistence_no_disk_witness :
  TokenPersist client_plain = false /\
  disk (Send env_disk_full to_alice hello None client_plain GoStd.emptyWorld).2
  = disk GoStd.emptyWorld.
Proof.
  assert (H : TokenPersist client_plain = false) by reflexivity.
  split; [exact H|].
  exact (proj2 (no_persistence_no_disk env_disk_full to_alice hello None
                  client_plain GoStd.emptyWorld H)).
Defined.

Lemma GetToken_twice_witness :
  (GetToken env_quiet client_empty GoStd.emptyWorld).1.1
  = ("fresh", 7300, None) /\
  (GetToken env_quiet
     (GetToken env_quiet client_empty GoStd.emptyWorld).1.2
     (GetToken env_quiet client_empty GoStd.emptyWorld).2).1.1
  = ("fresh", 7300, None).
Proof.
  assert (H1 : (GetToken env_quiet client_empty GoStd.emptyWorld).1.1
               = ("fresh", 7300, None)) by reflexivity.
  assert (H2 : "fresh" <> "") by discriminate.
  assert (H3 : time_at env_quiet
                 (ticks (net (GetToken env_quiet client_empty
                                GoStd.emptyWorld).2)) < 7300)
    by (simpl; lia).
  split; [exact H1|].
  exact (proj1 (GetToken_twice env_quiet client_empty GoStd.emptyWorld
                  "fresh" 7300 H1 H2 H3)).
Defined.

Lemma only_cache_files_written_witness :
  "notes.txt" <> CacheFilePath client_cached /\
  "notes.txt" <> CacheFilePath client_cached +:+ ".tmp" /\
  files (fs (disk (saveTokenCache env_quiet client_cached
                     GoStd.emptyWorld).2)) !! "notes.txt"
  = files (fs (disk GoStd.emptyWorld)) !! "notes.txt".
Proof.
  assert (H1 : "notes.txt" <> CacheFilePath client_cached) by discriminate.
  assert (H2 : "notes.txt" <> CacheFilePath client_cached +:+ ".tmp")
    by (vm_compute; discriminate).
  split; [exact H1|]. split; [exact H2|].
  exact (proj1 (only_cache_files_written env_quiet to_alice hello None
                  client_cached GoStd.emptyWorld "notes.txt" H1 H2)).
Defined.

Lemma saveTokenCache_success_no_tmp_witness :
  (saveTokenCache env_quiet client_cached GoStd.emptyWorld).1.1 = None /\
  files (fs (disk (saveTokenCache env_quiet client_cached
                     GoStd.emptyWorld).2))
    !! (CacheFilePath client_cached +:+ ".tmp") = None.
Proof.
  assert (H : (saveTokenCache env_quiet client_cached GoStd.emptyWorld).1.1
              = None) by reflexivity.
  split; [exact H|].
  exact (saveTokenCache_success_no_tmp env_quiet client_cached
           GoStd.emptyWorld H).
Defined.

Lemma saveTokenCache_rename_failure_witness :
  (saveTokenCache env_rename_fails client_cached GoStd.emptyWorld).1.1
  = Some (Errorf_w "rename temp file failed: " "invalid cross-device link") /\
  exists b, json_Marshal env_rename_fails client_cached = inr b /\
    files (fs (disk (saveTokenCache env_rename_fails client_cached
                       GoStd.emptyWorld).2))
      !! (CacheFilePath client_cached +:+ ".tmp")
    = Some {| data := b; synced := true |}.
Proof.
  assert (H : (saveTokenCache env_rename_fails client_cached
                 GoStd.emptyWorld).1.1
              = Some (Errorf_w "rename temp file failed: "
                        "invalid cross-device link")) by reflexivity.
  split; [exact H|].
  exact (saveTokenCache_rename_failure env_rename_fails client_cached
           GoStd.emptyWorld _ H).
Defined.


Lemma Send_rejects_early_witness :
  (hello = INil \/ ~ receiver_set to_nobody) /\
  Send env_quiet to_nobody hello None client_cached GoStd.emptyWorld
  = (zeroMessageResult, Some "message receiver not set, set at least one",
     client_cached, GoStd.emptyWorld).
Proof.
  assert (H : hello = INil \/ ~ receiver_set to_nobody).
  { right. unfold receiver_set. simpl. intros [H|[H|H]]; by apply H. }
  split; [exact H|].
  exact (Send_rejects_early env_quiet to_nobody hello None client_cached
           GoStd.emptyWorld H).
Defined.

Lemma Send_envelope_witness :
  ("tok", hello_body)
    ∈ new_posts GoStd.emptyWorld
        (Send env_quiet to_alice (IKey hello_text) (Some dedup_900)
           client_cached GoStd.emptyWorld).2 /\
  hello_body !! "touser" = Some (VString "alice") /\
  hello_body !! "msgtype" = Some (VString "text").
Proof.
  assert (H : ("tok", hello_body)
    ∈ new_posts GoStd.emptyWorld
        (Send env_quiet to_alice (IKey hello_text) (Some dedup_900)
           client_cached GoStd.emptyWorld).2).
  { vm_compute. constructor. }
  split; [exact H|].
  pose proof (Send_envelope env_quiet to_alice hello_text (Some dedup_900)
                client_cached GoStd.emptyWorld "tok" hello_body H)
    as (H1 & _ & _ & _ & H5 & _).
  split; assumption.
Defined.

Lemma Send_option_flags_witness :
  ("tok", hello_body)
    ∈ new_posts GoStd.emptyWorld
        (Send env_quiet to_alice (IKey hello_text) (Some dedup_900)
           client_cached GoStd.emptyWorld).2 /\
  hello_body !! "safe" = None /\
  hello_body !! "enable_duplicate_check" = Some (VInt 1).
Proof.
  assert (H : ("tok", hello_body)
    ∈ new_posts GoStd.emptyWorld
        (Send env_quiet to_alice (IKey hello_text) (Some dedup_900)
           client_cached GoStd.emptyWorld).2).
  { vm_compute. constructor. }
  split; [exact H|].
  pose proof (Send_option_flags env_quiet to_alice hello_text (Some dedup_900)
                client_cached GoStd.emptyWorld "tok" hello_body H)
    as (H1 & _ & H3).
  split; assumption.
Defined.

Lemma Send_token_failure_witness :
  receiver_set to_alice /\
  (GetToken env_token_down client_empty GoStd.emptyWorld).1.1.2
  = Some "token get request error: dial tcp: i/o timeout" /\
  (Send env_token_down to_alice (IKey hello_text) None client_empty
     GoStd.emptyWorld).1.1
  = (zeroMessageResult,
     Some "token get request error: dial tcp: i/o timeout").
Proof.
  assert (H1 : receiver_set to_alice) by (left; discriminate).
  assert (H2 : (GetToken env_token_down client_empty GoStd.emptyWorld).1.1.2
               = Some "token get request error: dial tcp: i/o timeout")
    by reflexivity.
  split; [exact H1|]. split; [exact H2|].
  exact (proj1 (Send_token_failure env_token_down to_alice hello_text None
                  client_empty GoStd.emptyWorld _ H1 H2)).
Defined.

Lemma Send_single_attempt_witness :
  receiver_set to_alice /\
  (GetToken env_quiet client_cached GoStd.emptyWorld).1.1.2 = None /\
  (Send env_quiet to_alice (IKey hello_text) None client_cached
     GoStd.emptyWorld).1.1 = (zeroMessageResult, None).
Proof.
  assert (H1 : receiver_set to_alice) by (left; discriminate).
  assert (H2 : (GetToken env_quiet client_cached GoStd.emptyWorld).1.1.2
               = None) by reflexivity.
  split; [exact H1|]. split; [exact H2|].
  pose proof (Send_single_attempt env_quiet to_alice hello_text None
                client_cached GoStd.emptyWorld H1 H2) as H.
  cbv zeta in H.
  change (send_reply env_quiet (length (posts (net GoStd.emptyWorld))))
    with (@HttpOk MessageResult zeroMessageResult) in H.
  cbv iota beta in H.
  refine (proj1 (H _ _)); discriminate.
Defined.

Lemma Send_last_post_token_witness :
  last (new_posts GoStd.emptyWorld
          (Send env_quiet to_alice hello (Some dedup_900) client_cached
             GoStd.emptyWorld).2) = Some ("tok", hello_body) /\
  "tok" = Token (Send env_quiet to_alice hello (Some dedup_900)
                   client_cached GoStd.emptyWorld).1.2.
Proof.
  assert (H : last (new_posts GoStd.emptyWorld
          (Send env_quiet to_alice hello (Some dedup_900) client_cached
             GoStd.emptyWorld).2) = Some ("tok", hello_body))
    by (vm_compute; reflexivity).
  split; [exact H|].
  exact (Send_last_post_token env_quiet to_alice hello (Some dedup_900)
           client_cached GoStd.emptyWorld "tok" hello_body H).
Defined.


Lemma Upload_local_failure_witness :
  open_media uenv_expired (Media_Path missing) uworld_media
  = inl "open media/none.png: no such file or directory" /\
  (Upload uenv_expired missing client_cached uworld_media).1.2
  = client_cached /\
  uploads (Upload uenv_expired missing client_cached uworld_media).2 = [].
Proof.
  assert (H : open_media uenv_expired (Media_Path missing) uworld_media
              = inl "open media/none.png: no such file or directory")
    by reflexivity.
  split; [exact H|].
  pose proof (Upload_local_failure uenv_expired missing client_cached
                uworld_media _ (or_introl H)) as (_ & _ & Hn & _ & Hu).
  split; assumption.
Defined.

Lemma Upload_token_failure_witness :
  open_media uenv_token_down (Media_Path logo) uworld_media
  = inr "PNG-bytes" /\
  (GetToken (up_env uenv_token_down) client_empty
     (up_world uworld_media)).1.1.2
  = Some "token get request error: dial tcp: i/o timeout" /\
  (Upload uenv_token_down logo client_empty uworld_media).1.1
  = (zeroUploadMediaResult,
     Some "token get request error: dial tcp: i/o timeout").
Proof.
  assert (H1 : open_media uenv_token_down (Media_Path logo) uworld_media
               = inr "PNG-bytes") by reflexivity.
  assert (H2 : (GetToken (up_env uenv_token_down) client_empty
                  (up_world uworld_media)).1.1.2
               = Some "token get request error: dial tcp: i/o timeout")
    by reflexivity.
  split; [exact H1|]. split; [exact H2|].
  exact (proj1 (Upload_token_failure uenv_token_down logo client_empty
                  uworld_media _ _ H1 eq_refl eq_refl H2)).
Defined.

Lemma Upload_posts_once_witness :
  open_media uenv_expired (Media_Path logo) uworld_media = inr "PNG-bytes" /\
  (GetToken (up_env uenv_expired) client_cached
     (up_world uworld_media)).1.1.2 = None /\
  let out := Upload uenv_expired logo client_cached uworld_media in
  uploads out.2 =
    [ {| up_token := "tok"; up_type := "image"; up_field := "media";
         up_filename := "logo.png"; up_content := "PNG-bytes" |} ] /\
  out.1.1 = (upload_expired, None).
Proof.
  assert (H1 : open_media uenv_expired (Media_Path logo) uworld_media
               = inr "PNG-bytes") by reflexivity.
  assert (H2 : (GetToken (up_env uenv_expired) client_cached
                  (up_world uworld_media)).1.1.2 = None) by reflexivity.
  split; [exact H1|]. split; [exact H2|].
  exact (proj2 (Upload_posts_once uenv_expired logo client_cached
                  uworld_media _ H1 eq_refl eq_refl H2)).
Defined.
